(** * gl3w loader template: a shallow embedding of [gl3w.header.c]

    The template is the hand-written part of the generated loader: three
    platform blocks ([open_libgl], [close_libgl], [get_proc]) selected by the
    preprocessor, the process-wide [version] record, [parse_version],
    [gl3wInit], [gl3wIsSupported] and [gl3wGetProcAddress].

    The C globals become fields of [state]; the operating system and the
    driver are a [World] of functions the loader calls; every such call is
    appended to [trace], so that the order of side effects can be stated.
    A C statement is a computation [M A] that returns to its caller ([Ret]),
    ends the process through a failed [assert] ([Abort]), or calls through a
    null function pointer ([Crash], undefined behaviour in C). *)

From Stdlib Require Import ZArith Lia.
From stdpp Require Import gmap strings list.

Local Open Scope Z_scope.
Local Open Scope string_scope.
Local Open Scope list_scope.

(** ** Build configuration *)

(** The three preprocessor branches of the template
    ([_WIN32], [__APPLE__ || __APPLE_CC__], otherwise). *)
Inductive platform := Win32 | Apple | Posix.

(** [NDEBUG] turns [assert] into a no-op. *)
Record build := Build { target : platform; NDEBUG : bool }.

(** ** Pointers and C integers

    Handles, object references and function pointers are addresses, [NULL]
    being address 0.  The [int]s of the template are only stored and
    compared, never computed with, so they are unbounded integers here. *)
Abbreviation NULL := 0%Z (only parsing).

Definition is_null (p : Z) : bool := Z.eqb p 0.

(** The [int] value of a C comparison. *)
Definition b2i (b : bool) : Z := if b then 1 else 0.

(** Constants of the system headers the template includes. *)
Definition GL_MAJOR_VERSION : Z := 0x821B.
Definition GL_MINOR_VERSION : Z := 0x821C.
Definition RTLD_LAZY : Z := 0x1.
Definition RTLD_GLOBAL : Z := 0x100.

(** ** The world outside the loader *)

(** A Core Foundation object handed to [CFRelease]: a string created from a
    C string, or an object known by its address. *)
Inductive cfref := CFStr (s : string) | CFObj (p : Z).

Record World := {
  (* windows.h *)
  LoadLibraryA : string -> Z;
  wglGetProcAddress : string -> Z;
  GetProcAddress : Z -> string -> Z;
  (* Carbon.h *)
  CFURLCreateWithFileSystemPath : string -> Z;
  CFBundleCreate : Z -> Z;
  CFBundleGetFunctionPointerForName : Z -> string -> Z;
  (* dlfcn.h *)
  dlopen : string -> Z -> Z;
  dlsym : Z -> string -> Z;
  (* the code at address [f], called as PFNGLXGETPROCADDRESSPROC on a name *)
  call_glx_get_proc_address : Z -> string -> Z;
  (* the code at address [f], called as glGetIntegerv on [pname] and a cell
     that holds [old]: the content of the cell afterwards *)
  call_glGetIntegerv : Z -> Z -> Z -> Z
}.

Inductive event :=
| EvLoadLibraryA (name : string)
| EvFreeLibrary (h : Z)
| EvWglGetProcAddress (proc : string)
| EvGetProcAddress (h : Z) (proc : string)
| EvCFURLCreateWithFileSystemPath (path : string)
| EvCFBundleCreate (url : Z)
| EvCFStringCreateWithCString (s : string)
| EvCFBundleGetFunctionPointerForName (b : Z) (name : string)
| EvCFRelease (o : cfref)
| EvDlopen (name : string) (flags : Z)
| EvDlsym (h : Z) (name : string)
| EvDlclose (h : Z)
| EvGlxGetProcAddress (f : Z) (proc : string)
| EvGlGetIntegerv (f : Z) (pname : Z).

(** ** Process-wide state *)

Module VersionInfo.
(** [static struct { int major, minor; } version;] *)
Record t := mk { major : Z; minor : Z }.
Definition zero : t := mk 0 0.
End VersionInfo.

Record state := State {
  libgl : Z;                    (* HMODULE libgl / void *libgl *)
  bundle : Z;                   (* CFBundleRef bundle *)
  bundleURL : Z;                (* CFURLRef bundleURL *)
  glx_get_proc_address : Z;     (* PFNGLXGETPROCADDRESSPROC *)
  procs : gmap string Z;        (* the generated pointer variables, by symbol *)
  version : VersionInfo.t;
  trace : list event
}.

(** C statics start zeroed. *)
Definition initial_state : state :=
  State 0 0 0 0 ∅ VersionInfo.zero [].

(** Reading a pointer variable; one never assigned still holds its zero. *)
Definition proc_var (st : state) (name : string) : Z :=
  default 0 (procs st !! name).

(** [glGetIntegerv] in the template is the macro alias of the pointer
    variable of that symbol. *)
Definition glGetIntegerv (st : state) : Z := proc_var st "glGetIntegerv".

Definition log (e : event) (st : state) : state :=
  State (libgl st) (bundle st) (bundleURL st) (glx_get_proc_address st)
        (procs st) (version st) (trace st ++ [e]).

Definition set_libgl (h : Z) (st : state) : state :=
  State h (bundle st) (bundleURL st) (glx_get_proc_address st)
        (procs st) (version st) (trace st).

Definition set_bundle (b : Z) (st : state) : state :=
  State (libgl st) b (bundleURL st) (glx_get_proc_address st)
        (procs st) (version st) (trace st).

Definition set_bundleURL (u : Z) (st : state) : state :=
  State (libgl st) (bundle st) u (glx_get_proc_address st)
        (procs st) (version st) (trace st).

Definition set_glx_get_proc_address (f : Z) (st : state) : state :=
  State (libgl st) (bundle st) (bundleURL st) f
        (procs st) (version st) (trace st).

Definition set_proc_var (name : string) (p : Z) (st : state) : state :=
  State (libgl st) (bundle st) (bundleURL st) (glx_get_proc_address st)
        (<[name := p]> (procs st)) (version st) (trace st).

Definition set_version (v : VersionInfo.t) (st : state) : state :=
  State (libgl st) (bundle st) (bundleURL st) (glx_get_proc_address st)
        (procs st) v (trace st).

(** ** Computations *)

Inductive outcome (A : Type) :=
| Ret (a : A) (st : state)   (* control returns to the caller *)
| Abort                      (* a failed assert: the process is terminated *)
| Crash.                     (* a call through a null function pointer *)
Arguments Ret {A} a st.
Arguments Abort {A}.
Arguments Crash {A}.

Definition M (A : Type) : Type := state -> outcome A.

Definition ret {A} (a : A) : M A := fun st => Ret a st.

Definition bind {A B} (c : M A) (k : A -> M B) : M B :=
  fun st => match c st with
            | Ret a st' => k a st'
            | Abort => Abort
            | Crash => Crash
            end.

Notation "'let*' x := c 'in' k" := (bind c (fun x => k))
  (at level 10, x name, c at level 100, k at level 200).
Notation "c ;;; k" := (bind c (fun _ => k))
  (at level 62, k at level 200, right associativity).

Definition gets {A} (f : state -> A) : M A := fun st => Ret (f st) st.
Definition modify (f : state -> state) : M unit := fun st => Ret tt (f st).

(** A call of an operating-system or driver function: it is logged and
    yields what the world answers. *)
Definition os_call {A} (e : event) (a : A) : M A :=
  fun st => Ret a (log e st).

(** A call through a function pointer held in a variable. *)
Definition call_through {A} (f : Z) (body : M A) : M A :=
  fun st => if is_null f then Crash else body st.

Section Loader.

Variable W : World.
Variable cfg : build.
(** The names of the catalog symbols, in catalog order. *)
Variable catalog : list string.

(** [assert(c)] of assert.h. *)
Definition assert (c : bool) : M unit :=
  fun st => if NDEBUG cfg || c then Ret tt st else Abort.

(** *** Windows *)

Definition open_libgl_win32 : M unit :=
  let* h := os_call (EvLoadLibraryA "opengl32.dll") (LoadLibraryA W "opengl32.dll") in
  modify (set_libgl h).

Definition close_libgl_win32 : M unit :=
  let* h := gets libgl in
  os_call (EvFreeLibrary h) tt.

Definition get_proc_win32 (proc : string) : M Z :=
  let* res := os_call (EvWglGetProcAddress proc) (wglGetProcAddress W proc) in
  if is_null res then
    let* h := gets libgl in
    os_call (EvGetProcAddress h proc) (GetProcAddress W h proc)
  else ret res.

(** *** Apple *)

Definition framework_path : string :=
  "/System/Library/Frameworks/OpenGL.framework".

Definition open_libgl_apple : M unit :=
  let* u := os_call (EvCFURLCreateWithFileSystemPath framework_path)
               (CFURLCreateWithFileSystemPath W framework_path) in
  modify (set_bundleURL u) ;;;
  let* b := os_call (EvCFBundleCreate u) (CFBundleCreate W u) in
  modify (set_bundle b) ;;;
  assert (negb (is_null b)).

Definition close_libgl_apple : M unit :=
  let* b := gets bundle in
  os_call (EvCFRelease (CFObj b)) tt ;;;
  let* u := gets bundleURL in
  os_call (EvCFRelease (CFObj u)) tt.

Definition get_proc_apple (proc : string) : M Z :=
  os_call (EvCFStringCreateWithCString proc) tt ;;;
  let* b := gets bundle in
  let* res := os_call (EvCFBundleGetFunctionPointerForName b proc)
                 (CFBundleGetFunctionPointerForName W b proc) in
  os_call (EvCFRelease (CFStr proc)) tt ;;;
  ret res.

(** *** Other systems: dlopen and GLX *)

Definition open_libgl_posix : M unit :=
  let flags := Z.lor RTLD_LAZY RTLD_GLOBAL in
  let* h := os_call (EvDlopen "libGL.so.1" flags) (dlopen W "libGL.so.1" flags) in
  modify (set_libgl h) ;;;
  let* f := os_call (EvDlsym h "glXGetProcAddressARB")
               (dlsym W h "glXGetProcAddressARB") in
  modify (set_glx_get_proc_address f).

Definition close_libgl_posix : M unit :=
  let* h := gets libgl in
  os_call (EvDlclose h) tt.

Definition get_proc_posix (proc : string) : M Z :=
  let* f := gets glx_get_proc_address in
  let* res := call_through f
           (os_call (EvGlxGetProcAddress f proc)
                    (call_glx_get_proc_address W f proc)) in
  if is_null res then
    let* h := gets libgl in
    os_call (EvDlsym h proc) (dlsym W h proc)
  else ret res.

(** *** The block the preprocessor keeps *)

Definition open_libgl : M unit :=
  match target cfg with
  | Win32 => open_libgl_win32
  | Apple => open_libgl_apple
  | Posix => open_libgl_posix
  end.

Definition close_libgl : M unit :=
  match target cfg with
  | Win32 => close_libgl_win32
  | Apple => close_libgl_apple
  | Posix => close_libgl_posix
  end.

Definition get_proc (proc : string) : M Z :=
  match target cfg with
  | Win32 => get_proc_win32 proc
  | Apple => get_proc_apple proc
  | Posix => get_proc_posix proc
  end.

(** *** Version detection *)

(** [glGetIntegerv(pname, &cell)]: the call and the content of the cell
    after it. *)
Definition query_integer (f pname old : Z) : M Z :=
  os_call (EvGlGetIntegerv f pname) (call_glGetIntegerv W f pname old).

Definition parse_version : M Z :=
  let* f := gets glGetIntegerv in
  if is_null f then ret (-1)
  else
    let* v := gets version in
    let* ma := query_integer f GL_MAJOR_VERSION (VersionInfo.major v) in
    modify (set_version (VersionInfo.mk ma (VersionInfo.minor v))) ;;;
    let* mi := query_integer f GL_MINOR_VERSION (VersionInfo.minor v) in
    modify (set_version (VersionInfo.mk ma mi)) ;;;
    if Z.ltb ma 3 then ret (-1) else ret 0.

(** Modelled from the spec: the body of [load_procs], which the template
    only declares ([static void load_procs(void);]) and the generator
    writes: for every symbol in catalog order, the result of the
    get-address procedure on the symbol's name is assigned to the symbol's
    pointer variable, for the whole catalog and whatever the result. *)
Fixpoint load_procs_from (symbols : list string) : M unit :=
  match symbols with
  | [] => ret tt
  | name :: rest =>
      let* p := get_proc name in
      modify (set_proc_var name p) ;;;
      load_procs_from rest
  end.

Definition load_procs : M unit := load_procs_from catalog.

(** *** The API *)

Definition gl3wInit : M Z :=
  open_libgl ;;;
  load_procs ;;;
  close_libgl ;;;
  parse_version.

Definition gl3wIsSupported (st : state) (major minor : Z) : Z :=
  if Z.ltb major 3 then 0
  else if Z.eqb (VersionInfo.major (version st)) major
       then b2i (Z.geb (VersionInfo.minor (version st)) minor)
       else b2i (Z.geb (VersionInfo.major (version st)) major).

Definition gl3wGetProcAddress (proc : string) : M Z := get_proc proc.

End Loader.

(** ** What each operation does, in closed form *)

(** Several events appended at once. *)
Definition logs (es : list event) (st : state) : state :=
  State (libgl st) (bundle st) (bundleURL st) (glx_get_proc_address st)
        (procs st) (version st) (trace st ++ es).

(** A C [int] used as a condition. *)
Definition c_true (r : Z) : Prop := r <> 0.

Section Closed_forms.

Variable W : World.
Variable cfg : build.

Definition dlopen_flags : Z := Z.lor RTLD_LAZY RTLD_GLOBAL.

(** The handle or bundle the open procedure obtains. *)
Definition opened_module : Z :=
  match target cfg with
  | Win32 => LoadLibraryA W "opengl32.dll"
  | Apple => CFBundleCreate W (CFURLCreateWithFileSystemPath W framework_path)
  | Posix => dlopen W "libGL.so.1" dlopen_flags
  end.

Definition open_events : list event :=
  match target cfg with
  | Win32 => [EvLoadLibraryA "opengl32.dll"]
  | Apple => [EvCFURLCreateWithFileSystemPath framework_path;
              EvCFBundleCreate (CFURLCreateWithFileSystemPath W framework_path)]
  | Posix => [EvDlopen "libGL.so.1" dlopen_flags;
              EvDlsym opened_module "glXGetProcAddressARB"]
  end.

Definition after_open (st : state) : state :=
  match target cfg with
  | Win32 => set_libgl opened_module (logs open_events st)
  | Apple =>
      set_bundle opened_module
        (set_bundleURL (CFURLCreateWithFileSystemPath W framework_path)
           (logs open_events st))
  | Posix =>
      set_glx_get_proc_address (dlsym W opened_module "glXGetProcAddressARB")
        (set_libgl opened_module (logs open_events st))
  end.

(** The one place where the template ends the process: the Apple block
    asserts that the bundle was created. *)
Definition open_aborts : bool :=
  match target cfg with
  | Apple => negb (NDEBUG cfg) && is_null opened_module
  | _ => false
  end.

(** [get_proc] can be called: on the dlopen block it calls through
    [glx_get_proc_address], which must hold an address. *)
Definition resolver_ready (st : state) : bool :=
  match target cfg with
  | Posix => negb (is_null (glx_get_proc_address st))
  | _ => true
  end.

(** The first lookup of the two-step blocks, and the event it leaves. *)
Definition extension_lookup (st : state) (proc : string) : Z :=
  match target cfg with
  | Win32 => wglGetProcAddress W proc
  | Apple => 0
  | Posix => call_glx_get_proc_address W (glx_get_proc_address st) proc
  end.

Definition extension_event (st : state) (proc : string) : event :=
  match target cfg with
  | Posix => EvGlxGetProcAddress (glx_get_proc_address st) proc
  | _ => EvWglGetProcAddress proc
  end.

(** The lookup in the opened module. *)
Definition generic_lookup (st : state) (proc : string) : Z :=
  match target cfg with
  | Win32 => GetProcAddress W (libgl st) proc
  | Apple => CFBundleGetFunctionPointerForName W (bundle st) proc
  | Posix => dlsym W (libgl st) proc
  end.

Definition generic_event (st : state) (proc : string) : event :=
  match target cfg with
  | Win32 => EvGetProcAddress (libgl st) proc
  | Apple => EvCFBundleGetFunctionPointerForName (bundle st) proc
  | Posix => EvDlsym (libgl st) proc
  end.

(** The pointer [get_proc] returns for a name. *)
Definition resolve (st : state) (proc : string) : Z :=
  match target cfg with
  | Apple => generic_lookup st proc
  | _ => if is_null (extension_lookup st proc)
         then generic_lookup st proc
         else extension_lookup st proc
  end.

Definition resolve_events (st : state) (proc : string) : list event :=
  match target cfg with
  | Apple => [EvCFStringCreateWithCString proc; generic_event st proc;
              EvCFRelease (CFStr proc)]
  | _ => extension_event st proc ::
         (if is_null (extension_lookup st proc)
          then [generic_event st proc] else [])
  end.

Definition close_events (st : state) : list event :=
  match target cfg with
  | Win32 => [EvFreeLibrary (libgl st)]
  | Apple => [EvCFRelease (CFObj (bundle st)); EvCFRelease (CFObj (bundleURL st))]
  | Posix => [EvDlclose (libgl st)]
  end.

(** The pointer variables after the catalog prefix [symbols] was loaded
    with the resolver of [st]. *)
Definition assign_all (st : state) (symbols : list string)
    (vars : gmap string Z) : gmap string Z :=
  foldl (fun m name => <[name := resolve st name]> m) vars symbols.

Definition after_load (symbols : list string) (st : state) : state :=
  State (libgl st) (bundle st) (bundleURL st) (glx_get_proc_address st)
        (assign_all st symbols (procs st)) (version st)
        (trace st ++ flat_map (resolve_events st) symbols).

(** The version the driver reports through the function at [f]. *)
Definition reported_major (f : Z) (st : state) : Z :=
  call_glGetIntegerv W f GL_MAJOR_VERSION (VersionInfo.major (version st)).

Definition reported_minor (f : Z) (st : state) : Z :=
  call_glGetIntegerv W f GL_MINOR_VERSION (VersionInfo.minor (version st)).

Definition version_events (st : state) : list event :=
  if is_null (glGetIntegerv st) then []
  else [EvGlGetIntegerv (glGetIntegerv st) GL_MAJOR_VERSION;
        EvGlGetIntegerv (glGetIntegerv st) GL_MINOR_VERSION].

Definition after_parse (st : state) : state :=
  if is_null (glGetIntegerv st) then st
  else set_version
         (VersionInfo.mk (reported_major (glGetIntegerv st) st)
                         (reported_minor (glGetIntegerv st) st))
         (logs (version_events st) st).

Definition parse_result (st : state) : Z :=
  if is_null (glGetIntegerv st) then -1
  else if Z.ltb (reported_major (glGetIntegerv st) st) 3 then -1 else 0.

End Closed_forms.

(** ** The phases of initialization *)

(** Two states in which [get_proc] sees the same module. *)
Definition same_resolver (st st' : state) : Prop :=
  libgl st = libgl st' /\ bundle st = bundle st' /\
  glx_get_proc_address st = glx_get_proc_address st'.

Section Phases.

Variable W : World.
Variable cfg : build.
Variable catalog : list string.

(** One round of the loop: resolve, assign. *)
Definition after_assign (name : string) (st : state) : state :=
  set_proc_var name (resolve W cfg st name)
    (logs (resolve_events W cfg st name) st).

(** On the dlopen block, whether [open_libgl] found glXGetProcAddressARB. *)
Definition glx_resolved : bool :=
  match target cfg with
  | Posix => negb (is_null (dlsym W (opened_module W cfg) "glXGetProcAddressARB"))
  | _ => true
  end.

(** The conditions under which [gl3wInit] comes back to its caller: the
    Apple assertion holds or is compiled out, and the dlopen block has a
    function to call for the first symbol. *)
Definition init_returns : bool :=
  negb (open_aborts W cfg) &&
  (glx_resolved || match catalog with [] => true | _ => false end).

Definition after_symbols (st : state) : state :=
  after_load W cfg catalog (after_open W cfg st).

Definition after_close (st : state) : state :=
  logs (close_events cfg (after_symbols st)) (after_symbols st).

End Phases.

(** ** Classifying the events of a run *)

(** The calls that give the module back to the system. *)
Definition closes_module (e : event) : bool :=
  match e with
  | EvFreeLibrary _ | EvDlclose _ | EvCFRelease (CFObj _) => true
  | _ => false
  end.

Definition is_version_query (e : event) : bool :=
  match e with
  | EvGlGetIntegerv _ _ => true
  | _ => false
  end.

(** An event of the open or of the resolution phase. *)
Definition while_open (e : event) : Prop :=
  closes_module e = false /\ is_version_query e = false.

(** A C function returns the truth value of [P] as an [int]. *)
Definition returns_truth (r : Z) (P : Prop) : Prop :=
  (r = 1 /\ P) \/ (r = 0 /\ ~ P).

(** ** Concrete worlds *)

(** A machine without any OpenGL: every lookup answers null, and nothing
    writes a version. *)
Definition no_driver : World :=
  {| LoadLibraryA := fun _ => 0;
     wglGetProcAddress := fun _ => 0;
     GetProcAddress := fun _ _ => 0;
     CFURLCreateWithFileSystemPath := fun _ => 0;
     CFBundleCreate := fun _ => 0;
     CFBundleGetFunctionPointerForName := fun _ _ => 0;
     dlopen := fun _ _ => 0;
     dlsym := fun _ _ => 0;
     call_glx_get_proc_address := fun _ _ => 0;
     call_glGetIntegerv := fun _ _ old => old |}.

(** A driver of version [ma].[mi] that has [glGetIntegerv] and [glBar] but
    not [glFoo]. *)
Definition driver (ma mi : Z) : World :=
  {| LoadLibraryA := fun _ => 0x1000;
     wglGetProcAddress :=
       fun proc => if String.eqb proc "glBar" then 0x2000 else 0;
     GetProcAddress :=
       fun _ proc => if String.eqb proc "glGetIntegerv" then 0x3000 else 0;
     CFURLCreateWithFileSystemPath := fun _ => 0x5000;
     CFBundleCreate := fun _ => 0x1000;
     CFBundleGetFunctionPointerForName :=
       fun _ proc => if String.eqb proc "glGetIntegerv" then 0x3000
                     else if String.eqb proc "glBar" then 0x2000 else 0;
     dlopen := fun _ _ => 0x1000;
     dlsym :=
       fun _ proc => if String.eqb proc "glXGetProcAddressARB" then 0x4000
                     else if String.eqb proc "glGetIntegerv" then 0x3000
                     else 0;
     call_glx_get_proc_address :=
       fun _ proc => if String.eqb proc "glBar" then 0x2000 else 0;
     call_glGetIntegerv :=
       fun _ pname old => if Z.eqb pname GL_MAJOR_VERSION then ma
                          else if Z.eqb pname GL_MINOR_VERSION then mi
                          else old |}.

Definition sample_catalog : list string := ["glFoo"; "glGetIntegerv"; "glBar"].

(** ** Versions, resources and the events of a whole run *)

(** Version [M].[m] is not above version [M'].[m']: major first. *)
Definition version_le (M m M' m' : Z) : Prop :=
  M < M' \/ (M = M' /\ m <= m').

(** The calls that obtain something from the system, and those that hand
    something back. *)
Definition acquires (e : event) : bool :=
  match e with
  | EvLoadLibraryA _ | EvDlopen _ _
  | EvCFURLCreateWithFileSystemPath _ | EvCFBundleCreate _
  | EvCFStringCreateWithCString _ => true
  | _ => false
  end.

Definition releases (e : event) : bool :=
  match e with
  | EvFreeLibrary _ | EvDlclose _ | EvCFRelease _ => true
  | _ => false
  end.

Fixpoint count_if (p : event -> bool) (es : list event) : nat :=
  match es with
  | [] => O
  | e :: rest => if p e then S (count_if p rest) else count_if p rest
  end.

(** CFStrings per call of [get_proc]: one on the Apple block. *)
Definition strings_per_lookup (cfg : build) : nat :=
  match target cfg with Apple => 1%nat | _ => 0%nat end.

(** The closing calls on what the open procedure obtained. *)
Definition closing_calls (W : World) (cfg : build) : list event :=
  match target cfg with
  | Win32 => [EvFreeLibrary (opened_module W cfg)]
  | Apple => [EvCFRelease (CFObj (opened_module W cfg));
              EvCFRelease
                (CFObj (CFURLCreateWithFileSystemPath W framework_path))]
  | Posix => [EvDlclose (opened_module W cfg)]
  end.

(** The module lookup of [get_proc] on the handle the open procedure
    obtained. *)
Definition lookup_in_opened (W : World) (cfg : build) (proc : string) : event :=
  match target cfg with
  | Win32 => EvGetProcAddress (opened_module W cfg) proc
  | Apple => EvCFBundleGetFunctionPointerForName (opened_module W cfg) proc
  | Posix => EvDlsym (opened_module W cfg) proc
  end.

(** The open procedure obtained everything it asked for: the module
    handle and, on the Apple block, the URL, on the dlopen block,
    glXGetProcAddressARB. *)
Definition open_succeeded (W : World) (cfg : build) : bool :=
  negb (is_null (opened_module W cfg)) &&
  match target cfg with
  | Win32 => true
  | Apple => negb (is_null (CFURLCreateWithFileSystemPath W framework_path))
  | Posix =>
      negb (is_null (dlsym W (opened_module W cfg) "glXGetProcAddressARB"))
  end.

(** The pointer [parse_version] finds in the [glGetIntegerv] variable at
    the end of a run of [gl3wInit] from [st]: what [get_proc] answers for
    that name on the opened module when the catalog has the symbol, and
    otherwise what the variable held. *)
Definition loaded_glGetIntegerv
    (W : World) (cfg : build) (catalog : list string) (st : state) : Z :=
  if bool_decide ("glGetIntegerv" ∈ catalog)
  then resolve W cfg (after_open W cfg st) "glGetIntegerv"
  else glGetIntegerv st.

(** The driver of [driver ma mi] with [glGetIntegerv] missing from every
    lookup; it reports its version as [driver ma mi] does. *)
Definition driver_without_query (ma mi : Z) : World :=
  {| LoadLibraryA := LoadLibraryA (driver ma mi);
     wglGetProcAddress := wglGetProcAddress (driver ma mi);
     GetProcAddress := fun _ _ => 0;
     CFURLCreateWithFileSystemPath :=
       CFURLCreateWithFileSystemPath (driver ma mi);
     CFBundleCreate := CFBundleCreate (driver ma mi);
     CFBundleGetFunctionPointerForName :=
       fun _ proc => if String.eqb proc "glBar" then 0x2000 else 0;
     dlopen := dlopen (driver ma mi);
     dlsym :=
       fun _ proc => if String.eqb proc "glXGetProcAddressARB" then 0x4000
                     else 0;
     call_glx_get_proc_address := call_glx_get_proc_address (driver ma mi);
     call_glGetIntegerv := call_glGetIntegerv (driver ma mi) |}.

(** ** Basic facts *)

Lemma is_null_true p : is_null p = true <-> p = 0.
Proof. unfold is_null. apply Z.eqb_eq. Qed.

Lemma is_null_false p : is_null p = false <-> p <> 0.
Proof. unfold is_null. apply Z.eqb_neq. Qed.

Lemma state_eq st st' :
  libgl st = libgl st' -> bundle st = bundle st' ->
  bundleURL st = bundleURL st' ->
  glx_get_proc_address st = glx_get_proc_address st' ->
  procs st = procs st' -> version st = version st' ->
  trace st = trace st' -> st = st'.
Proof. destruct st, st'; simpl; intros; subst; reflexivity. Qed.

Ltac run :=
  unfold bind, os_call, gets, modify, ret, call_through, assert; simpl.

Ltac same_state :=
  apply state_eq; simpl; rewrite <- ?app_assoc; simpl; reflexivity.

Section Runs.

Variable W : World.
Variable cfg : build.

Lemma open_libgl_run st :
  open_libgl W cfg st =
  if open_aborts W cfg then Abort else Ret tt (after_open W cfg st).
Proof.
  unfold open_libgl, open_aborts, after_open, open_events, opened_module,
    dlopen_flags.
  destruct (target cfg).
  - unfold open_libgl_win32. run. f_equal.
  - unfold open_libgl_apple. run.
    destruct (NDEBUG cfg); simpl.
    + f_equal. same_state.
    + destruct (is_null _); simpl; [reflexivity|]. f_equal. same_state.
  - unfold open_libgl_posix. run. f_equal. same_state.
Qed.

Lemma close_libgl_run st :
  close_libgl cfg st = Ret tt (logs (close_events cfg st) st).
Proof.
  unfold close_libgl, close_events.
  destruct (target cfg).
  - reflexivity.
  - unfold close_libgl_apple. run. f_equal. same_state.
  - reflexivity.
Qed.

Lemma get_proc_run proc st :
  get_proc W cfg proc st =
  if resolver_ready cfg st
  then Ret (resolve W cfg st proc) (logs (resolve_events W cfg st proc) st)
  else Crash.
Proof.
  unfold get_proc, resolver_ready, resolve, resolve_events,
    extension_lookup, extension_event, generic_lookup, generic_event.
  destruct (target cfg).
  - unfold get_proc_win32. run.
    destruct (is_null (wglGetProcAddress W proc)); simpl; f_equal; same_state.
  - unfold get_proc_apple. run. f_equal. same_state.
  - unfold get_proc_posix. run.
    destruct (is_null (glx_get_proc_address st)); simpl; [reflexivity|].
    destruct (is_null (call_glx_get_proc_address W _ proc)); simpl;
      f_equal; same_state.
Qed.

Lemma parse_version_run st :
  parse_version W st = Ret (parse_result W st) (after_parse W st).
Proof.
  unfold parse_version, parse_result, after_parse, version_events,
    query_integer, reported_major, reported_minor.
  run.
  destruct (is_null (glGetIntegerv st)); simpl; [reflexivity|].
  destruct (Z.ltb _ 3); f_equal; same_state.
Qed.

End Runs.

(** ** Loading the catalog *)

Section Loading.

Variable W : World.
Variable cfg : build.

Lemma resolve_same st st' proc :
  same_resolver st st' -> resolve W cfg st' proc = resolve W cfg st proc.
Proof.
  intros (Hl & Hb & Hg).
  unfold resolve, extension_lookup, generic_lookup.
  rewrite Hl, Hb, Hg. reflexivity.
Qed.

Lemma resolver_ready_same st st' :
  same_resolver st st' -> resolver_ready cfg st' = resolver_ready cfg st.
Proof.
  intros (_ & _ & Hg). unfold resolver_ready. rewrite Hg. reflexivity.
Qed.

Lemma assign_all_same st st' symbols vars :
  same_resolver st st' ->
  assign_all W cfg st' symbols vars = assign_all W cfg st symbols vars.
Proof.
  intros Hs. revert vars.
  induction symbols as [|name rest IH]; intros vars; simpl; [reflexivity|].
  unfold assign_all in *. simpl.
  rewrite IH, (resolve_same st st' name Hs). reflexivity.
Qed.

Lemma after_load_nil st : after_load W cfg [] st = st.
Proof. apply state_eq; simpl; auto using app_nil_r. Qed.

Lemma after_assign_same name st : same_resolver st (after_assign W cfg name st).
Proof. repeat split. Qed.

Lemma after_load_cons name rest st :
  after_load W cfg rest (after_assign W cfg name st) =
  after_load W cfg (name :: rest) st.
Proof.
  pose proof (after_assign_same name st) as Hs.
  apply state_eq;
    [reflexivity | reflexivity | reflexivity | reflexivity | | reflexivity | ].
  - cbn [procs after_load after_assign set_proc_var logs].
    rewrite (assign_all_same _ _ rest _ Hs). reflexivity.
  - cbn [trace after_load after_assign set_proc_var logs flat_map].
    rewrite <- app_assoc. do 2 f_equal.
Qed.

Lemma load_procs_from_run symbols : forall st,
  resolver_ready cfg st = true ->
  load_procs_from W cfg symbols st = Ret tt (after_load W cfg symbols st).
Proof.
  induction symbols as [|name rest IH]; intros st Hready.
  - simpl. unfold ret. rewrite after_load_nil. reflexivity.
  - simpl. unfold bind at 1. rewrite get_proc_run, Hready.
    unfold bind at 1, modify.
    change (set_proc_var name _ _) with (after_assign W cfg name st).
    rewrite IH.
    + rewrite after_load_cons. reflexivity.
    + rewrite (resolver_ready_same st); [exact Hready|].
      apply after_assign_same.
Qed.

Lemma load_procs_from_crash name rest st :
  resolver_ready cfg st = false ->
  load_procs_from W cfg (name :: rest) st = Crash.
Proof.
  intros Hready. simpl. unfold bind at 1.
  rewrite get_proc_run, Hready. reflexivity.
Qed.

(** The variable of a symbol that [assign_all] does not name is untouched;
    the variable of one it names holds what the resolver gave. *)
Lemma assign_all_other st symbols : forall vars name,
  name ∉ symbols ->
  assign_all W cfg st symbols vars !! name = vars !! name.
Proof.
  induction symbols as [|s rest IH]; intros vars name Hnot; [reflexivity|].
  unfold assign_all in *. simpl.
  rewrite IH by (intros Hin; apply Hnot; right; exact Hin).
  apply lookup_insert_ne. intros ->. apply Hnot. left.
Qed.

Lemma assign_all_member st symbols : forall vars name,
  name ∈ symbols ->
  assign_all W cfg st symbols vars !! name = Some (resolve W cfg st name).
Proof.
  induction symbols as [|s rest IH]; intros vars name Hin.
  - inversion Hin.
  - unfold assign_all in *. simpl.
    destruct (decide (name ∈ rest)) as [Hrest|Hrest].
    + apply IH. exact Hrest.
    + pose proof (assign_all_other st rest (<[s:=resolve W cfg st s]> vars)
                    name Hrest) as Hother.
      unfold assign_all in Hother. rewrite Hother.
      apply elem_of_cons in Hin as [->|Hin]; [|contradiction].
      apply lookup_insert_eq.
Qed.

End Loading.

(** ** Initialization as a whole *)

Section Init.

Variable W : World.
Variable cfg : build.
Variable catalog : list string.

Lemma resolver_ready_after_open st :
  resolver_ready cfg (after_open W cfg st) = glx_resolved W cfg.
Proof.
  unfold resolver_ready, glx_resolved, after_open.
  destruct (target cfg); reflexivity.
Qed.

Lemma load_procs_after_open st :
  load_procs W cfg catalog (after_open W cfg st) =
  if glx_resolved W cfg || match catalog with [] => true | _ => false end
  then Ret tt (after_symbols W cfg catalog st) else Crash.
Proof.
  unfold load_procs, after_symbols.
  destruct (glx_resolved W cfg) eqn:Hglx; simpl.
  - apply load_procs_from_run. rewrite resolver_ready_after_open. exact Hglx.
  - destruct catalog as [|name rest].
    + simpl. unfold ret. rewrite after_load_nil. reflexivity.
    + apply load_procs_from_crash.
      rewrite resolver_ready_after_open. exact Hglx.
Qed.

Lemma gl3wInit_run st :
  gl3wInit W cfg catalog st =
  if open_aborts W cfg then Abort
  else if glx_resolved W cfg || match catalog with [] => true | _ => false end
       then Ret (parse_result W (after_close W cfg catalog st))
                (after_parse W (after_close W cfg catalog st))
       else Crash.
Proof.
  unfold gl3wInit. unfold bind at 1. rewrite open_libgl_run.
  destruct (open_aborts W cfg); [reflexivity|].
  unfold bind at 1. rewrite load_procs_after_open.
  destruct (glx_resolved W cfg || _); [|reflexivity].
  unfold bind at 1. rewrite close_libgl_run.
  apply parse_version_run.
Qed.

Lemma gl3wInit_returns st :
  init_returns W cfg catalog = true ->
  gl3wInit W cfg catalog st =
  Ret (parse_result W (after_close W cfg catalog st)) (after_parse W (after_close W cfg catalog st)).
Proof.
  unfold init_returns. intros H. rewrite gl3wInit_run.
  apply andb_true_iff in H as [Ha Hl].
  apply negb_true_iff in Ha. rewrite Ha, Hl. reflexivity.
Qed.

(** What initialization leaves untouched, and what it sets. *)
Lemma version_after_close st : version (after_close W cfg catalog st) = version st.
Proof.
  unfold after_close, after_symbols, after_open.
  destruct (target cfg); reflexivity.
Qed.

Lemma procs_after_parse st : procs (after_parse W st) = procs st.
Proof. unfold after_parse. destruct (is_null _); reflexivity. Qed.

Lemma glGetIntegerv_after_parse st :
  glGetIntegerv (after_parse W st) = glGetIntegerv st.
Proof. unfold glGetIntegerv, proc_var. rewrite procs_after_parse. reflexivity. Qed.

Lemma parse_result_cases st :
  parse_result W st = 0 \/ parse_result W st = -1.
Proof.
  unfold parse_result.
  destruct (is_null _); [right; reflexivity|].
  destruct (Z.ltb _ 3); [right|left]; reflexivity.
Qed.

Lemma parse_result_fails st :
  parse_result W st <> 0 <->
  glGetIntegerv st = 0 \/ reported_major W (glGetIntegerv st) st < 3.
Proof.
  unfold parse_result.
  destruct (is_null (glGetIntegerv st)) eqn:Hf.
  - apply is_null_true in Hf. split; [intros _; left; exact Hf | intros _; lia].
  - apply is_null_false in Hf.
    destruct (Z.ltb_spec (reported_major W (glGetIntegerv st) st) 3).
    + split; [intros _; right; assumption | intros _; lia].
    + split; [intros Hne; exfalso; apply Hne; reflexivity |].
      intros [Hz|Hlt]; [contradiction | lia].
Qed.

End Init.

(** ** The events of each phase *)

Lemma open_events_while_open W cfg : Forall while_open (open_events W cfg).
Proof.
  unfold open_events. destruct (target cfg); repeat constructor.
Qed.

Lemma resolve_events_while_open W cfg st proc :
  Forall while_open (resolve_events W cfg st proc).
Proof.
  unfold resolve_events, extension_event, generic_event.
  destruct (target cfg); try destruct (is_null _); repeat constructor.
Qed.

Lemma resolve_events_nonempty W cfg st proc :
  resolve_events W cfg st proc <> [].
Proof. unfold resolve_events. destruct (target cfg); discriminate. Qed.

Lemma load_events_while_open W cfg st symbols :
  Forall while_open (flat_map (resolve_events W cfg st) symbols).
Proof.
  induction symbols as [|name rest IH]; simpl.
  - constructor.
  - apply Forall_app. split; [apply resolve_events_while_open | exact IH].
Qed.

Lemma close_events_close cfg st :
  close_events cfg st <> [] /\
  Forall (fun e => closes_module e = true /\ is_version_query e = false)
         (close_events cfg st).
Proof.
  unfold close_events.
  destruct (target cfg); (split; [discriminate | repeat constructor]).
Qed.

Lemma version_events_query st :
  Forall (fun e => is_version_query e = true) (version_events st).
Proof.
  unfold version_events. destruct (is_null _); repeat constructor.
Qed.

Lemma trace_after_parse W st :
  trace (after_parse W st) = trace st ++ version_events st.
Proof.
  unfold after_parse, version_events.
  destruct (is_null _); simpl; [symmetry; apply app_nil_r | reflexivity].
Qed.

Example init_on_3_2 :
  exists st, gl3wInit (driver 3 2) (Build Win32 false) sample_catalog
               initial_state = Ret 0 st /\
             version st = VersionInfo.mk 3 2 /\
             proc_var st "glFoo" = 0 /\ proc_var st "glBar" = 0x2000.
Proof. eexists. vm_compute. repeat split. Qed.

Example init_on_2_1 :
  exists st, gl3wInit (driver 2 1) (Build Posix false) sample_catalog
               initial_state = Ret (-1) st /\
             proc_var st "glBar" = 0x2000.
Proof. eexists. vm_compute. repeat split. Qed.

(** ** The support query *)

Lemma b2i_geb_truth a b : returns_truth (b2i (Z.geb a b)) (a >= b).
Proof.
  unfold returns_truth, b2i. rewrite Z.geb_leb.
  destruct (Z.leb_spec b a); [left | right]; split; auto; lia.
Qed.

(** C1, as the claim words its instance for (2,0): with the version record
    at 3.2 the query for 2.0 would answer true.  The guard [major < 3]
    answers 0 there. *)
Lemma gl3wIsSupported_2_0_not_true :
  ~ c_true (gl3wIsSupported
              (set_version (VersionInfo.mk 3 2) initial_state) 2 0).
Proof. unfold c_true. intros H. apply H. reflexivity. Qed.

(** C1 (amended): [gl3wIsSupported major minor] answers 0 when [major < 3];
    otherwise, when the recorded major equals [major], the truth of
    recorded minor >= [minor]; otherwise the truth of recorded major >=
    [major].  With the record at 3.2: (2,0) gives 0, (3,1) gives 1, (3,3)
    gives 0, (4,0) gives 0 and (3,2) gives 1. *)
Theorem gl3wIsSupported_rule (st : state) (major minor : Z) :
  ((major < 3 /\ gl3wIsSupported st major minor = 0) \/
   (3 <= major /\ VersionInfo.major (version st) = major /\
    returns_truth (gl3wIsSupported st major minor)
                  (VersionInfo.minor (version st) >= minor)) \/
   (3 <= major /\ VersionInfo.major (version st) <> major /\
    returns_truth (gl3wIsSupported st major minor)
                  (VersionInfo.major (version st) >= major)))
  /\ gl3wIsSupported (set_version (VersionInfo.mk 3 2) st) 2 0 = 0
  /\ gl3wIsSupported (set_version (VersionInfo.mk 3 2) st) 3 1 = 1
  /\ gl3wIsSupported (set_version (VersionInfo.mk 3 2) st) 3 3 = 0
  /\ gl3wIsSupported (set_version (VersionInfo.mk 3 2) st) 4 0 = 0
  /\ gl3wIsSupported (set_version (VersionInfo.mk 3 2) st) 3 2 = 1.
Proof.
  split; [|repeat split].
  unfold gl3wIsSupported.
  destruct (Z.ltb_spec major 3) as [Hlt|Hge].
  - left. split; [exact Hlt | reflexivity].
  - right.
    destruct (Z.eqb_spec (VersionInfo.major (version st)) major) as [He|Hne].
    + left. repeat split; auto. apply b2i_geb_truth.
    + right. repeat split; auto. apply b2i_geb_truth.
Qed.

(** ** The version query *)

(** C2: [parse_version] returns to its caller with -1 or 0; it returns the
    error sentinel -1 exactly when the [glGetIntegerv] pointer is null or
    the major number the driver reports is below 3; when it returns 0 the
    version record holds the reported major and minor numbers. *)
Theorem parse_version_spec (W : World) (st : state) :
  exists r st',
    parse_version W st = Ret r st' /\
    (r = -1 \/ r = 0) /\
    (r = -1 <->
     glGetIntegerv st = NULL \/ reported_major W (glGetIntegerv st) st < 3) /\
    (r = 0 ->
     version st' =
       VersionInfo.mk (reported_major W (glGetIntegerv st) st)
                      (reported_minor W (glGetIntegerv st) st) /\
     trace st' = trace st ++
       [EvGlGetIntegerv (glGetIntegerv st) GL_MAJOR_VERSION;
        EvGlGetIntegerv (glGetIntegerv st) GL_MINOR_VERSION]) /\
    (glGetIntegerv st = NULL -> st' = st).
Proof.
  exists (parse_result W st), (after_parse W st).
  split; [apply parse_version_run|].
  pose proof (parse_result_cases W st) as Hcases.
  pose proof (parse_result_fails W st) as Hfails.
  split; [tauto|]. split; [|split].
  - rewrite <- Hfails. lia.
  - unfold parse_result, after_parse, version_events.
    destruct (is_null (glGetIntegerv st)); [discriminate|].
    intros _. split; reflexivity.
  - intros Hnull. apply is_null_true in Hnull.
    unfold after_parse. rewrite Hnull. reflexivity.
Qed.

(** ** The zero version *)

Lemma gl3wIsSupported_zero st major minor :
  version st = VersionInfo.zero -> gl3wIsSupported st major minor = 0.
Proof.
  intros Hv. unfold gl3wIsSupported. rewrite Hv.
  unfold VersionInfo.zero. cbn [VersionInfo.major VersionInfo.minor].
  destruct (Z.ltb_spec major 3) as [Hlt|Hge]; [reflexivity|].
  destruct (Z.eqb_spec 0 major) as [He|Hne]; [lia|].
  unfold b2i. rewrite Z.geb_leb.
  destruct (Z.leb_spec major 0); [lia | reflexivity].
Qed.

(** C7: the version record starts at zero; when [gl3wInit], run on a zero
    record, returns with the [glGetIntegerv] pointer null (so that the
    version query never ran), it returns -1, the record is still zero, and
    [gl3wIsSupported] answers 0 for all arguments. *)
Theorem version_stays_zero
    (W : World) (cfg : build) (catalog : list string)
    (st : state) (r : Z) (st' : state) :
  version st = VersionInfo.zero ->
  gl3wInit W cfg catalog st = Ret r st' ->
  glGetIntegerv st' = NULL ->
  version initial_state = VersionInfo.zero /\
  r = -1 /\
  version st' = VersionInfo.zero /\
  forall major minor, gl3wIsSupported st' major minor = 0.
Proof.
  intros Hzero Hrun Hnull.
  rewrite gl3wInit_run in Hrun.
  destruct (open_aborts W cfg); [discriminate|].
  destruct (glx_resolved W cfg || _); [|discriminate].
  injection Hrun as Hr Hst. subst r st'.
  rewrite glGetIntegerv_after_parse in Hnull.
  apply is_null_true in Hnull.
  assert (Hv : version (after_parse W (after_close W cfg catalog st)) =
               VersionInfo.zero).
  { unfold after_parse. rewrite Hnull, version_after_close. exact Hzero. }
  split; [reflexivity|]. split; [|split].
  - unfold parse_result. rewrite Hnull. reflexivity.
  - exact Hv.
  - intros major minor. apply gl3wIsSupported_zero. exact Hv.
Qed.

Lemma version_stays_zero_witness :
  exists st',
    gl3wInit no_driver (Build Win32 false) sample_catalog initial_state =
      Ret (-1) st' /\
    glGetIntegerv st' = NULL /\
    version initial_state = VersionInfo.zero /\
    -1 = -1 /\
    version st' = VersionInfo.zero /\
    forall major minor, gl3wIsSupported st' major minor = 0.
Proof.
  eexists. split; [vm_compute; reflexivity|].
  split; [vm_compute; reflexivity|].
  apply (version_stays_zero no_driver (Build Win32 false) sample_catalog
           initial_state (-1)).
  - reflexivity.
  - vm_compute. reflexivity.
  - vm_compute. reflexivity.
Defined.

(** ** The two-step lookup *)

(** C10: on the Windows and dlopen blocks, [get_proc] first asks the
    extension function (wglGetProcAddress, or the function held in
    [glx_get_proc_address]) and returns its answer when that is not null;
    only when it is null does it ask the module lookup (GetProcAddress,
    dlsym) for the same name and return that answer. *)
Theorem get_proc_two_step
    (W : World) (cfg : build) (st : state) (proc : string) :
  target cfg <> Apple ->
  resolver_ready cfg st = true ->
  exists st',
    get_proc W cfg proc st =
      Ret (if is_null (extension_lookup W cfg st proc)
           then generic_lookup W cfg st proc
           else extension_lookup W cfg st proc) st' /\
    trace st' = trace st ++
      extension_event cfg st proc ::
      (if is_null (extension_lookup W cfg st proc)
       then [generic_event cfg st proc] else []) /\
    (target cfg = Win32 ->
     extension_lookup W cfg st proc = wglGetProcAddress W proc /\
     generic_lookup W cfg st proc = GetProcAddress W (libgl st) proc) /\
    (target cfg = Posix ->
     extension_lookup W cfg st proc =
       call_glx_get_proc_address W (glx_get_proc_address st) proc /\
     generic_lookup W cfg st proc = dlsym W (libgl st) proc).
Proof.
  intros Hplat Hready.
  exists (logs (resolve_events W cfg st proc) st).
  rewrite get_proc_run, Hready.
  unfold resolve, resolve_events, extension_lookup, generic_lookup.
  destruct (target cfg); [| contradiction |];
    (split; [reflexivity|]); (split; [reflexivity|]);
    split; intros Heq; try discriminate Heq; split; reflexivity.
Qed.

Lemma get_proc_two_step_witness :
  Posix <> Apple /\
  resolver_ready (Build Posix false)
    (after_open (driver 3 2) (Build Posix false) initial_state) = true /\
  exists st',
    get_proc (driver 3 2) (Build Posix false) "glGetIntegerv"
      (after_open (driver 3 2) (Build Posix false) initial_state) =
    Ret 0x3000 st' /\
    trace st' =
      [EvDlopen "libGL.so.1" 0x101; EvDlsym 0x1000 "glXGetProcAddressARB";
       EvGlxGetProcAddress 0x4000 "glGetIntegerv";
       EvDlsym 0x1000 "glGetIntegerv"].
Proof.
  split; [discriminate|]. split; [reflexivity|].
  destruct (get_proc_two_step (driver 3 2) (Build Posix false)
              (after_open (driver 3 2) (Build Posix false) initial_state)
              "glGetIntegerv")
    as (st' & Hrun & Htrace & _).
  - discriminate.
  - reflexivity.
  - exists st'. split; [exact Hrun | exact Htrace].
Defined.

(** ** Loading the whole catalog *)

(** C8: [load_procs] calls [get_proc] once for every catalog symbol, in
    catalog order, and assigns each result, null or not, to the symbol's
    pointer variable; nothing else changes, no symbol is skipped after a
    null, and [gl3wInit] still returns with every catalog variable holding
    what the resolver gave. *)
Theorem load_procs_complete
    (W : World) (cfg : build) (catalog : list string) (st : state) :
  resolver_ready cfg st = true ->
  exists st',
    load_procs W cfg catalog st = Ret tt st' /\
    (forall proc, get_proc W cfg proc st =
       Ret (resolve W cfg st proc) (logs (resolve_events W cfg st proc) st) /\
       resolve_events W cfg st proc <> []) /\
    trace st' = trace st ++ flat_map (resolve_events W cfg st) catalog /\
    (forall name, name ∈ catalog ->
       procs st' !! name = Some (resolve W cfg st name)) /\
    (forall name, name ∉ catalog -> procs st' !! name = procs st !! name) /\
    same_resolver st st' /\ version st' = version st /\
    (init_returns W cfg catalog = true ->
     exists r s,
       gl3wInit W cfg catalog st = Ret r s /\
       forall name, name ∈ catalog ->
         proc_var s name = resolve W cfg (after_open W cfg st) name).
Proof.
  intros Hready.
  exists (after_load W cfg catalog st).
  split; [apply load_procs_from_run; exact Hready|].
  split.
  { intros proc. rewrite get_proc_run, Hready.
    split; [reflexivity | apply resolve_events_nonempty]. }
  split; [reflexivity|].
  split; [intros name Hin; apply assign_all_member; exact Hin|].
  split; [intros name Hnot; apply assign_all_other; exact Hnot|].
  split; [repeat split|]. split; [reflexivity|].
  intros Hret. eexists _, _. split; [apply gl3wInit_returns; exact Hret|].
  intros name Hin. unfold proc_var.
  rewrite procs_after_parse.
  unfold after_close, after_symbols. cbn [procs logs after_load].
  rewrite assign_all_member by exact Hin. reflexivity.
Qed.

Lemma load_procs_complete_witness :
  resolver_ready (Build Win32 false) initial_state = true /\
  exists st',
    load_procs (driver 3 2) (Build Win32 false) sample_catalog initial_state =
      Ret tt st' /\
    proc_var st' "glFoo" = NULL /\
    proc_var st' "glGetIntegerv" = 0x3000 /\
    proc_var st' "glBar" = 0x2000 /\
    trace st' =
      [EvWglGetProcAddress "glFoo"; EvGetProcAddress 0 "glFoo";
       EvWglGetProcAddress "glGetIntegerv";
       EvGetProcAddress 0 "glGetIntegerv";
       EvWglGetProcAddress "glBar"].
Proof.
  split; [reflexivity|].
  destruct (load_procs_complete (driver 3 2) (Build Win32 false)
              sample_catalog initial_state eq_refl)
    as (st' & Hrun & _ & Htrace & Hin & _).
  exists st'. split; [exact Hrun|].
  unfold proc_var.
  rewrite !Hin by (unfold sample_catalog; set_solver).
  rewrite Htrace. repeat split.
Defined.

(** ** The order of initialization *)

(** C3: when [gl3wInit] comes back to its caller it has run, in this order,
    [open_libgl], [load_procs], [close_libgl] and [parse_version], whose
    result it returns.  Its trace is the events of the four steps one after
    the other: no call that closes the module occurs before the last
    symbol is resolved, the module is not replaced during resolution, the
    closing calls come next, and every version query comes after them. *)
Theorem gl3wInit_sequence
    (W : World) (cfg : build) (catalog : list string) (st : state) :
  init_returns W cfg catalog = true ->
  exists s1 s2 s3 r s4,
    open_libgl W cfg st = Ret tt s1 /\
    load_procs W cfg catalog s1 = Ret tt s2 /\
    close_libgl cfg s2 = Ret tt s3 /\
    parse_version W s3 = Ret r s4 /\
    gl3wInit W cfg catalog st = Ret r s4 /\
    trace s1 = trace st ++ open_events W cfg /\
    trace s2 = trace s1 ++ flat_map (resolve_events W cfg s1) catalog /\
    trace s3 = trace s2 ++ close_events cfg s2 /\
    trace s4 = trace s3 ++ version_events s3 /\
    same_resolver s1 s2 /\
    Forall while_open
      (open_events W cfg ++ flat_map (resolve_events W cfg s1) catalog) /\
    close_events cfg s2 <> [] /\
    Forall (fun e => closes_module e = true /\ is_version_query e = false)
      (close_events cfg s2) /\
    Forall (fun e => is_version_query e = true) (version_events s3).
Proof.
  intros Hret.
  pose proof (gl3wInit_returns W cfg catalog st Hret) as Hinit.
  unfold init_returns in Hret.
  apply andb_true_iff in Hret as [Habort Hload].
  apply negb_true_iff in Habort.
  exists (after_open W cfg st), (after_symbols W cfg catalog st),
    (after_close W cfg catalog st),
    (parse_result W (after_close W cfg catalog st)),
    (after_parse W (after_close W cfg catalog st)).
  split; [rewrite open_libgl_run, Habort; reflexivity|].
  split; [rewrite load_procs_after_open, Hload; reflexivity|].
  split; [apply close_libgl_run|].
  split; [apply parse_version_run|].
  split; [exact Hinit|].
  split; [unfold after_open; destruct (target cfg); reflexivity|].
  split; [reflexivity|]. split; [reflexivity|].
  split; [apply trace_after_parse|].
  split; [repeat split|].
  split.
  { apply Forall_app. split;
      [apply open_events_while_open | apply load_events_while_open]. }
  split; [apply close_events_close|].
  split; [apply close_events_close | apply version_events_query].
Qed.

Lemma gl3wInit_sequence_witness :
  init_returns (driver 3 2) (Build Posix false) sample_catalog = true /\
  exists r s4,
    gl3wInit (driver 3 2) (Build Posix false) sample_catalog initial_state =
      Ret r s4 /\
    r = 0 /\
    trace s4 =
      [EvDlopen "libGL.so.1" 0x101; EvDlsym 0x1000 "glXGetProcAddressARB";
       EvGlxGetProcAddress 0x4000 "glFoo"; EvDlsym 0x1000 "glFoo";
       EvGlxGetProcAddress 0x4000 "glGetIntegerv";
       EvDlsym 0x1000 "glGetIntegerv";
       EvGlxGetProcAddress 0x4000 "glBar";
       EvDlclose 0x1000;
       EvGlGetIntegerv 0x3000 GL_MAJOR_VERSION;
       EvGlGetIntegerv 0x3000 GL_MINOR_VERSION].
Proof.
  split; [reflexivity|].
  destruct (gl3wInit_sequence (driver 3 2) (Build Posix false) sample_catalog
              initial_state eq_refl)
    as (s1 & s2 & s3 & r & s4 & _ & _ & _ & _ & Hinit & _).
  exists r, s4. split; [exact Hinit|].
  rewrite gl3wInit_run in Hinit. vm_compute in Hinit.
  injection Hinit as <- <-. split; reflexivity.
Defined.

(** ** Failure paths *)

(** C6: on the dlopen block, on a machine where dlopen fails and dlsym on
    the null handle finds no glXGetProcAddressARB, [open_libgl] returns
    with both variables null, and the next [get_proc] calls through the
    null pointer: neither [gl3wGetProcAddress] nor [gl3wInit] on a
    one-symbol catalog returns. *)
Theorem posix_open_failure_crashes :
  open_libgl no_driver (Build Posix false) initial_state =
    Ret tt (after_open no_driver (Build Posix false) initial_state) /\
  libgl (after_open no_driver (Build Posix false) initial_state) = NULL /\
  glx_get_proc_address
    (after_open no_driver (Build Posix false) initial_state) = NULL /\
  gl3wGetProcAddress no_driver (Build Posix false) "glGetIntegerv"
    (after_open no_driver (Build Posix false) initial_state) = Crash /\
  gl3wInit no_driver (Build Posix false) ["glGetIntegerv"] initial_state =
    Crash.
Proof. repeat split. Qed.

(** The sibling block does what the claim says: on Windows a failed
    LoadLibraryA leaves [get_proc] returning null. *)
Example win32_open_failure_returns_null :
  exists st',
    gl3wGetProcAddress no_driver (Build Win32 false) "glGetIntegerv"
      (after_open no_driver (Build Win32 false) initial_state) = Ret NULL st'.
Proof. eexists. reflexivity. Qed.

(** ** Further properties of the template *)

Lemma gl3wInit_inv W cfg catalog st r st' :
  gl3wInit W cfg catalog st = Ret r st' ->
  init_returns W cfg catalog = true /\
  r = parse_result W (after_close W cfg catalog st) /\
  st' = after_parse W (after_close W cfg catalog st).
Proof.
  intros H. rewrite gl3wInit_run in H. unfold init_returns.
  destruct (open_aborts W cfg); [discriminate|].
  destruct (glx_resolved W cfg || _); [|discriminate].
  injection H as <- <-. auto.
Qed.

Lemma gl3wIsSupported_cases st M m :
  gl3wIsSupported st M m = 0 \/ gl3wIsSupported st M m = 1.
Proof.
  unfold gl3wIsSupported, b2i.
  destruct (Z.ltb M 3); [left; reflexivity|].
  destruct (Z.eqb _ M); destruct (Z.geb _ _); auto.
Qed.

Lemma gl3wIsSupported_one_iff st M m :
  gl3wIsSupported st M m = 1 <->
  3 <= M /\
  version_le M m (VersionInfo.major (version st))
                 (VersionInfo.minor (version st)).
Proof.
  unfold gl3wIsSupported, b2i, version_le. rewrite !Z.geb_leb.
  destruct (Z.ltb_spec M 3) as [Hlt|Hge]; [split; [discriminate | lia]|].
  destruct (Z.eqb_spec (VersionInfo.major (version st)) M) as [He|Hne].
  - destruct (Z.leb_spec m (VersionInfo.minor (version st)));
      (split; [intros H1; try discriminate H1; lia | intros; lia]).
  - destruct (Z.leb_spec M (VersionInfo.major (version st)));
      (split; [intros H1; try discriminate H1; lia | intros; lia]).
Qed.

Lemma gl3wIsSupported_below_3 st :
  VersionInfo.major (version st) < 3 ->
  forall M m, gl3wIsSupported st M m = 0.
Proof.
  intros Hlow M m.
  destruct (gl3wIsSupported_cases st M m) as [H0|H1]; [exact H0|].
  apply gl3wIsSupported_one_iff in H1. unfold version_le in H1. lia.
Qed.

Lemma version_after_parse W st :
  version (after_parse W st) =
  if is_null (glGetIntegerv st) then version st
  else VersionInfo.mk (reported_major W (glGetIntegerv st) st)
                      (reported_minor W (glGetIntegerv st) st).
Proof. unfold after_parse. destruct (is_null _); reflexivity. Qed.

(** X1: [gl3wIsSupported] answers 0 or 1, and it answers true exactly when
    [major] is at least 3 and [major].[minor] is not above the recorded
    version, compared major first. *)
Theorem gl3wIsSupported_lexicographic (st : state) (major minor : Z) :
  (gl3wIsSupported st major minor = 0 \/ gl3wIsSupported st major minor = 1) /\
  (c_true (gl3wIsSupported st major minor) <->
   3 <= major /\
   version_le major minor (VersionInfo.major (version st))
                          (VersionInfo.minor (version st))).
Proof.
  split; [apply gl3wIsSupported_cases|].
  rewrite <- gl3wIsSupported_one_iff. unfold c_true.
  destruct (gl3wIsSupported_cases st major minor); lia.
Qed.

(** X2: support is closed downwards: when [major].[minor] is supported,
    so is every version not above it whose major is at least 3. *)
Theorem gl3wIsSupported_downward (st : state) (major minor major' minor' : Z) :
  c_true (gl3wIsSupported st major minor) ->
  3 <= major' ->
  version_le major' minor' major minor ->
  gl3wIsSupported st major' minor' = 1.
Proof.
  intros Hsup Hge Hle.
  assert (H1 : gl3wIsSupported st major minor = 1).
  { unfold c_true in Hsup.
    destruct (gl3wIsSupported_cases st major minor); [contradiction | assumption]. }
  apply gl3wIsSupported_one_iff in H1 as [_ Hv].
  apply gl3wIsSupported_one_iff. unfold version_le in *. lia.
Qed.

Lemma gl3wIsSupported_downward_witness :
  c_true (gl3wIsSupported (set_version (VersionInfo.mk 4 1) initial_state) 4 0)
  /\ 3 <= 3 /\ version_le 3 3 4 0 /\
  gl3wIsSupported (set_version (VersionInfo.mk 4 1) initial_state) 3 3 = 1.
Proof.
  assert (Hsup : c_true (gl3wIsSupported
                           (set_version (VersionInfo.mk 4 1) initial_state)
                           4 0)).
  { unfold c_true. vm_compute. discriminate. }
  assert (Hle : version_le 3 3 4 0) by (left; lia).
  split; [exact Hsup|]. split; [lia|]. split; [exact Hle|].
  apply (gl3wIsSupported_downward _ 4 0 3 3 Hsup); [lia | exact Hle].
Defined.

(** X3: on a run that starts with a recorded major below 3, as the zeroed
    record of a fresh process, the code [gl3wInit] returns and the support
    query agree: after 0 the recorded major is at least 3 and the recorded
    version itself is supported; after a nonzero code every query answers
    0. *)
Theorem init_code_agrees_with_support
    (W : World) (cfg : build) (catalog : list string)
    (st : state) (r : Z) (st' : state) :
  VersionInfo.major (version st) < 3 ->
  gl3wInit W cfg catalog st = Ret r st' ->
  (r = 0 ->
   3 <= VersionInfo.major (version st') /\
   gl3wIsSupported st' (VersionInfo.major (version st'))
                       (VersionInfo.minor (version st')) = 1) /\
  (r <> 0 -> forall major minor, gl3wIsSupported st' major minor = 0) /\
  (r = 0 <-> exists major minor, c_true (gl3wIsSupported st' major minor)).
Proof.
  intros Hlow Hrun.
  apply gl3wInit_inv in Hrun as (_ & -> & ->).
  set (s := after_close W cfg catalog st).
  assert (Hvs : version s = version st) by apply version_after_close.
  assert (Hok : parse_result W s = 0 ->
                3 <= VersionInfo.major (version (after_parse W s)) /\
                gl3wIsSupported (after_parse W s)
                  (VersionInfo.major (version (after_parse W s)))
                  (VersionInfo.minor (version (after_parse W s))) = 1).
  { unfold parse_result.
    destruct (is_null (glGetIntegerv s)) eqn:Hn; [discriminate|].
    destruct (Z.ltb_spec (reported_major W (glGetIntegerv s) s) 3);
      [discriminate|].
    intros _. rewrite version_after_parse, Hn.
    cbn [VersionInfo.major VersionInfo.minor].
    split; [assumption|].
    apply gl3wIsSupported_one_iff. rewrite version_after_parse, Hn.
    cbn [VersionInfo.major VersionInfo.minor]. unfold version_le. lia. }
  assert (Hbad : parse_result W s <> 0 ->
                 forall major minor,
                   gl3wIsSupported (after_parse W s) major minor = 0).
  { unfold parse_result. intros Hne.
    apply gl3wIsSupported_below_3. rewrite version_after_parse.
    destruct (is_null (glGetIntegerv s)); [rewrite Hvs; exact Hlow|].
    destruct (Z.ltb_spec (reported_major W (glGetIntegerv s) s) 3);
      [assumption | contradiction]. }
  split; [exact Hok|]. split; [exact Hbad|].
  split.
  - intros H0. destruct (Hok H0) as [_ H1]. eexists _, _.
    unfold c_true. rewrite H1. discriminate.
  - intros (major & minor & Hsup).
    destruct (Z.eq_dec (parse_result W s) 0) as [H0|Hne]; [exact H0|].
    exfalso. apply Hsup. apply Hbad. exact Hne.
Qed.

Lemma init_code_agrees_with_support_witness :
  VersionInfo.major (version initial_state) < 3 /\
  exists st',
    gl3wInit (driver 4 1) (Build Posix false) sample_catalog initial_state =
      Ret 0 st' /\
    3 <= VersionInfo.major (version st') /\
    gl3wIsSupported st' (VersionInfo.major (version st'))
                        (VersionInfo.minor (version st')) = 1.
Proof.
  assert (Hlow : VersionInfo.major (version initial_state) < 3)
    by (vm_compute; reflexivity).
  split; [exact Hlow|].
  eexists. split; [vm_compute; reflexivity|].
  eapply (init_code_agrees_with_support (driver 4 1) (Build Posix false)
            sample_catalog initial_state 0 _ Hlow).
  - vm_compute. reflexivity.
  - reflexivity.
Defined.

(** X4: a run of [gl3wInit] that returns with the [glGetIntegerv] pointer
    null returns -1 and leaves the version record as it was, so that
    [gl3wIsSupported] goes on answering from the record of an earlier
    initialization. *)
Theorem failed_init_keeps_version
    (W : World) (cfg : build) (catalog : list string)
    (st : state) (r : Z) (st' : state) :
  gl3wInit W cfg catalog st = Ret r st' ->
  glGetIntegerv st' = NULL ->
  r = -1 /\
  version st' = version st /\
  forall major minor,
    gl3wIsSupported st' major minor = gl3wIsSupported st major minor.
Proof.
  intros Hrun Hnull.
  apply gl3wInit_inv in Hrun as (_ & -> & ->).
  rewrite glGetIntegerv_after_parse in Hnull.
  apply is_null_true in Hnull.
  assert (Hv : version (after_parse W (after_close W cfg catalog st)) =
               version st).
  { rewrite version_after_parse, Hnull. apply version_after_close. }
  split; [unfold parse_result; rewrite Hnull; reflexivity|].
  split; [exact Hv|].
  intros major minor. unfold gl3wIsSupported. rewrite Hv. reflexivity.
Qed.

Lemma failed_init_keeps_version_witness :
  exists st',
    gl3wInit no_driver (Build Win32 false) sample_catalog
      (set_version (VersionInfo.mk 3 2) initial_state) = Ret (-1) st' /\
    glGetIntegerv st' = NULL /\
    version st' = VersionInfo.mk 3 2 /\
    gl3wIsSupported st' 3 2 = 1.
Proof.
  eexists. split; [vm_compute; reflexivity|].
  split; [vm_compute; reflexivity|].
  destruct (failed_init_keeps_version no_driver (Build Win32 false)
              sample_catalog (set_version (VersionInfo.mk 3 2) initial_state)
              (-1) _ ltac:(vm_compute; reflexivity)
              ltac:(vm_compute; reflexivity))
    as (_ & Hv & Hsup).
  split; [exact Hv | rewrite Hsup; reflexivity].
Defined.

(** X5: when the [glGetIntegerv] pointer is not null, [parse_version]
    writes what the driver reports into the version record before it looks
    at it: the record holds the reported numbers whatever the result, and
    when the reported major is below 3 the result is -1 and every later
    support query answers 0.  Nothing else but the trace changes. *)
Theorem parse_version_writes_first (W : World) (st : state) :
  glGetIntegerv st <> NULL ->
  exists r st',
    parse_version W st = Ret r st' /\
    version st' =
      VersionInfo.mk (reported_major W (glGetIntegerv st) st)
                     (reported_minor W (glGetIntegerv st) st) /\
    (reported_major W (glGetIntegerv st) st < 3 ->
     r = -1 /\ forall major minor, gl3wIsSupported st' major minor = 0) /\
    procs st' = procs st /\ same_resolver st st'.
Proof.
  intros Hptr. apply is_null_false in Hptr.
  exists (parse_result W st), (after_parse W st).
  split; [apply parse_version_run|].
  assert (Hv : version (after_parse W st) =
               VersionInfo.mk (reported_major W (glGetIntegerv st) st)
                              (reported_minor W (glGetIntegerv st) st)).
  { rewrite version_after_parse, Hptr. reflexivity. }
  split; [exact Hv|]. split; [|split].
  - intros Hlow. split.
    + unfold parse_result. rewrite Hptr.
      destruct (Z.ltb_spec (reported_major W (glGetIntegerv st) st) 3);
        [reflexivity | lia].
    + apply gl3wIsSupported_below_3. rewrite Hv. exact Hlow.
  - apply procs_after_parse.
  - unfold after_parse. rewrite Hptr. repeat split.
Qed.

Lemma parse_version_writes_first_witness :
  glGetIntegerv (set_proc_var "glGetIntegerv" 0x3000 initial_state) <> NULL /\
  exists st',
    parse_version (driver 2 1)
      (set_proc_var "glGetIntegerv" 0x3000 initial_state) = Ret (-1) st' /\
    version st' = VersionInfo.mk 2 1.
Proof.
  assert (Hptr : glGetIntegerv
                   (set_proc_var "glGetIntegerv" 0x3000 initial_state) <> 0)
    by (vm_compute; discriminate).
  split; [exact Hptr|].
  destruct (parse_version_writes_first (driver 2 1) _ Hptr)
    as (r & st' & Hrun & Hv & Hlow & _).
  exists st'. split.
  - rewrite Hrun. f_equal.
    apply Hlow. vm_compute. reflexivity.
  - rewrite Hv. vm_compute. reflexivity.
Defined.

(** *** The events of a whole run *)

Lemma count_if_app p es es' :
  count_if p (es ++ es') = (count_if p es + count_if p es')%nat.
Proof.
  induction es as [|e rest IH]; simpl; [reflexivity|].
  destruct (p e); simpl; rewrite IH; reflexivity.
Qed.

Lemma count_if_flat_map {A} p (f : A -> list event) (k : nat) (l : list A) :
  (forall x, count_if p (f x) = k) ->
  count_if p (flat_map f l) = (k * length l)%nat.
Proof.
  intros Hk. induction l as [|x rest IH]; simpl; [lia|].
  rewrite count_if_app, Hk, IH. lia.
Qed.

Lemma resolve_events_acquires W cfg st proc :
  count_if acquires (resolve_events W cfg st proc) = strings_per_lookup cfg.
Proof.
  unfold resolve_events, strings_per_lookup, extension_event, generic_event.
  destruct (target cfg); try destruct (is_null _); reflexivity.
Qed.

Lemma resolve_events_releases W cfg st proc :
  count_if releases (resolve_events W cfg st proc) = strings_per_lookup cfg.
Proof.
  unfold resolve_events, strings_per_lookup, extension_event, generic_event.
  destruct (target cfg); try destruct (is_null _); reflexivity.
Qed.

Lemma resolve_events_length W cfg st proc :
  (1 <= length (resolve_events W cfg st proc) <= 3)%nat.
Proof.
  unfold resolve_events.
  destruct (target cfg); try destruct (is_null _); simpl; lia.
Qed.

Lemma close_events_after_symbols W cfg catalog st :
  close_events cfg (after_symbols W cfg catalog st) = closing_calls W cfg.
Proof.
  unfold close_events, closing_calls, after_symbols, after_open.
  destruct (target cfg); reflexivity.
Qed.

Lemma same_resolver_after_close W cfg catalog st :
  same_resolver (after_open W cfg st) (after_close W cfg catalog st).
Proof. repeat split. Qed.

Lemma bundleURL_after_close W cfg catalog st :
  bundleURL (after_close W cfg catalog st) = bundleURL (after_open W cfg st).
Proof. reflexivity. Qed.

Lemma procs_after_open W cfg st : procs (after_open W cfg st) = procs st.
Proof. unfold after_open. destruct (target cfg); reflexivity. Qed.

Lemma procs_after_close W cfg catalog st :
  procs (after_close W cfg catalog st) =
  assign_all W cfg (after_open W cfg st) catalog (procs st).
Proof.
  unfold after_close, after_symbols. cbn [procs logs after_load].
  rewrite procs_after_open. reflexivity.
Qed.

Lemma version_events_after_parse W st :
  version_events (after_parse W st) = version_events st.
Proof.
  unfold version_events. rewrite glGetIntegerv_after_parse. reflexivity.
Qed.

Lemma trace_after_init W cfg catalog st :
  trace (after_parse W (after_close W cfg catalog st)) =
  trace st ++
  open_events W cfg ++
  flat_map (resolve_events W cfg (after_open W cfg st)) catalog ++
  closing_calls W cfg ++
  version_events (after_close W cfg catalog st).
Proof.
  rewrite trace_after_parse.
  unfold after_close at 1. cbn [trace logs].
  rewrite close_events_after_symbols.
  unfold after_symbols. cbn [trace after_load].
  assert (Ho : trace (after_open W cfg st) = trace st ++ open_events W cfg)
    by (unfold after_open; destruct (target cfg); reflexivity).
  rewrite Ho, <- !app_assoc. reflexivity.
Qed.

(** X6: a run of [gl3wInit] that returns closes what it opened: its events
    are the open calls, the lookups of the catalog symbols in order on the
    opened module, the closing calls on the very handle (and URL) the open
    calls returned, null or not, and then the version queries. *)
Theorem gl3wInit_closes_what_it_opened
    (W : World) (cfg : build) (catalog : list string) (st : state) :
  init_returns W cfg catalog = true ->
  exists r st',
    gl3wInit W cfg catalog st = Ret r st' /\
    trace st' =
      trace st ++
      open_events W cfg ++
      flat_map (resolve_events W cfg (after_open W cfg st)) catalog ++
      closing_calls W cfg ++
      version_events st'.
Proof.
  intros Hret. eexists _, _.
  split; [apply gl3wInit_returns; exact Hret|].
  rewrite version_events_after_parse. apply trace_after_init.
Qed.

Lemma gl3wInit_closes_what_it_opened_witness :
  init_returns no_driver (Build Win32 false) ["glFoo"] = true /\
  exists st',
    gl3wInit no_driver (Build Win32 false) ["glFoo"] initial_state =
      Ret (-1) st' /\
    trace st' =
      [EvLoadLibraryA "opengl32.dll";
       EvWglGetProcAddress "glFoo"; EvGetProcAddress NULL "glFoo";
       EvFreeLibrary NULL].
Proof.
  split; [reflexivity|].
  destruct (gl3wInit_closes_what_it_opened no_driver (Build Win32 false)
              ["glFoo"] initial_state eq_refl)
    as (r & st' & Hrun & Htrace).
  pose proof Hrun as Hc. rewrite gl3wInit_run in Hc. vm_compute in Hc.
  injection Hc as <- <-.
  eexists. split; [exact Hrun | exact Htrace].
Defined.

(** X7: a run of [gl3wInit] that returns hands back as many things as it
    obtained: one module on the Windows and dlopen blocks; on the Apple
    block the URL, the bundle and one string per catalog symbol. *)
Theorem gl3wInit_balanced
    (W : World) (cfg : build) (catalog : list string) (st : state) :
  init_returns W cfg catalog = true ->
  exists r st' added,
    gl3wInit W cfg catalog st = Ret r st' /\
    trace st' = trace st ++ added /\
    count_if acquires added = count_if releases added /\
    count_if releases added =
      match target cfg with
      | Apple => (2 + length catalog)%nat
      | _ => 1%nat
      end.
Proof.
  intros Hret. eexists _, _, _.
  split; [apply gl3wInit_returns; exact Hret|].
  split; [apply trace_after_init|].
  assert (Hv : forall p, (p = acquires \/ p = releases) ->
             count_if p (version_events (after_close W cfg catalog st)) = O).
  { intros p [-> | ->]; unfold version_events;
      destruct (is_null _); reflexivity. }
  rewrite !count_if_app.
  rewrite (count_if_flat_map acquires _ (strings_per_lookup cfg))
    by (intros; apply resolve_events_acquires).
  rewrite (count_if_flat_map releases _ (strings_per_lookup cfg))
    by (intros; apply resolve_events_releases).
  rewrite !Hv by auto.
  unfold open_events, closing_calls, strings_per_lookup.
  destruct (target cfg); simpl; split; lia.
Qed.

Lemma gl3wInit_balanced_witness :
  init_returns (driver 3 2) (Build Apple false) sample_catalog = true /\
  exists r st' added,
    gl3wInit (driver 3 2) (Build Apple false) sample_catalog initial_state =
      Ret r st' /\
    trace st' = trace initial_state ++ added /\
    count_if acquires added = 5%nat /\ count_if releases added = 5%nat.
Proof.
  split; [reflexivity|].
  destruct (gl3wInit_balanced (driver 3 2) (Build Apple false) sample_catalog
              initial_state eq_refl)
    as (r & st' & added & Hrun & Htrace & Hbal & Hn).
  exists r, st', added. split; [exact Hrun|]. split; [exact Htrace|].
  rewrite Hbal, Hn. split; reflexivity.
Defined.

(** *** Lookups outside initialization *)

(** X8: [close_libgl] does not clear the handle it closes: after a run of
    [gl3wInit] that returns, the module variables still hold what the open
    procedure obtained, the closing calls on it are in the trace, and
    [gl3wGetProcAddress] makes the same lookups on that handle as the
    loading did (or, on the dlopen block without glXGetProcAddressARB,
    calls through the null pointer). *)
Theorem handles_outlive_close
    (W : World) (cfg : build) (catalog : list string) (st : state)
    (proc : string) :
  init_returns W cfg catalog = true ->
  exists r st',
    gl3wInit W cfg catalog st = Ret r st' /\
    same_resolver (after_open W cfg st) st' /\
    match target cfg with
    | Apple => bundle st' = opened_module W cfg
    | _ => libgl st' = opened_module W cfg
    end /\
    generic_event cfg st' proc = lookup_in_opened W cfg proc /\
    (exists before after,
        trace st' = before ++ closing_calls W cfg ++ after) /\
    gl3wGetProcAddress W cfg proc st' =
      if glx_resolved W cfg
      then Ret (resolve W cfg (after_open W cfg st) proc)
               (logs (resolve_events W cfg (after_open W cfg st) proc) st')
      else Crash.
Proof.
  intros Hret. eexists _, _.
  split; [apply gl3wInit_returns; exact Hret|].
  set (s := after_close W cfg catalog st).
  assert (Hsame : same_resolver (after_open W cfg st) (after_parse W s)).
  { unfold after_parse. destruct (is_null _); repeat split. }
  split; [exact Hsame|].
  destruct Hsame as (Hl & Hb & Hg).
  split.
  { rewrite <- Hl, <- Hb. unfold after_open.
    destruct (target cfg); reflexivity. }
  split.
  { unfold generic_event, lookup_in_opened. rewrite <- Hl, <- Hb.
    unfold after_open. destruct (target cfg); reflexivity. }
  split.
  { eexists _, _. unfold s. rewrite trace_after_init.
    rewrite (app_assoc (open_events W cfg)), (app_assoc (trace st)).
    reflexivity. }
  unfold gl3wGetProcAddress. rewrite get_proc_run.
  rewrite (resolver_ready_same cfg (after_open W cfg st))
    by (repeat split; assumption).
  rewrite resolver_ready_after_open.
  destruct (glx_resolved W cfg); [|reflexivity].
  rewrite (resolve_same W cfg (after_open W cfg st))
    by (repeat split; assumption).
  unfold resolve_events, extension_lookup, extension_event, generic_event.
  rewrite <- Hl, <- Hb, <- Hg. reflexivity.
Qed.

Lemma handles_outlive_close_witness :
  init_returns (driver 3 2) (Build Posix false) sample_catalog = true /\
  exists r st',
    gl3wInit (driver 3 2) (Build Posix false) sample_catalog initial_state =
      Ret r st' /\
    libgl st' = 0x1000 /\
    generic_event (Build Posix false) st' "glNew" = EvDlsym 0x1000 "glNew".
Proof.
  split; [reflexivity|].
  destruct (handles_outlive_close (driver 3 2) (Build Posix false)
              sample_catalog initial_state "glNew" eq_refl)
    as (r & st' & Hrun & _ & Hlib & Hev & _).
  exists r, st'. split; [exact Hrun|]. split; [exact Hlib | exact Hev].
Defined.

(** X9: a call of [gl3wGetProcAddress] that returns changes nothing but the
    trace: no pointer variable is assigned, the version record and the
    module variables are as before; it makes between one and three calls,
    none of which closes the module or queries the version, and it
    releases every string it created. *)
Theorem gl3wGetProcAddress_frame
    (W : World) (cfg : build) (proc : string) (st : state)
    (p : Z) (st' : state) :
  gl3wGetProcAddress W cfg proc st = Ret p st' ->
  procs st' = procs st /\ version st' = version st /\
  same_resolver st st' /\ bundleURL st' = bundleURL st /\
  exists es,
    trace st' = trace st ++ es /\
    (1 <= length es <= 3)%nat /\
    Forall while_open es /\
    count_if acquires es = count_if releases es.
Proof.
  unfold gl3wGetProcAddress. rewrite get_proc_run.
  destruct (resolver_ready cfg st); [|discriminate].
  intros Hrun. injection Hrun as <- <-.
  do 3 (split; [repeat split|]). split; [reflexivity|].
  exists (resolve_events W cfg st proc).
  split; [reflexivity|].
  split; [apply resolve_events_length|].
  split; [apply resolve_events_while_open|].
  rewrite resolve_events_acquires, resolve_events_releases. reflexivity.
Qed.

Lemma gl3wGetProcAddress_frame_witness :
  exists st',
    gl3wGetProcAddress (driver 3 2) (Build Apple false) "glBar"
      initial_state = Ret 0x2000 st' /\
    procs st' = procs initial_state /\
    version st' = version initial_state.
Proof.
  eexists. split; [vm_compute; reflexivity|].
  destruct (gl3wGetProcAddress_frame (driver 3 2) (Build Apple false) "glBar"
              initial_state 0x2000 _ ltac:(vm_compute; reflexivity))
    as (Hp & Hv & _).
  split; [exact Hp | exact Hv].
Defined.

(** X10: [gl3wGetProcAddress] returns null exactly when every lookup of
    the platform fails: the bundle lookup on the Apple block; on the other
    two, both the extension lookup and the module lookup. *)
Theorem gl3wGetProcAddress_null_iff
    (W : World) (cfg : build) (proc : string) (st : state)
    (p : Z) (st' : state) :
  gl3wGetProcAddress W cfg proc st = Ret p st' ->
  (p = NULL <->
   generic_lookup W cfg st proc = NULL /\
   (target cfg = Apple \/ extension_lookup W cfg st proc = NULL)).
Proof.
  unfold gl3wGetProcAddress. rewrite get_proc_run.
  destruct (resolver_ready cfg st); [|discriminate].
  intros Hrun. injection Hrun as <- _.
  unfold resolve.
  destruct (target cfg) eqn:Ht.
  - destruct (is_null (extension_lookup W cfg st proc)) eqn:He.
    + apply is_null_true in He. intuition congruence.
    + apply is_null_false in He. intuition congruence.
  - intuition congruence.
  - destruct (is_null (extension_lookup W cfg st proc)) eqn:He.
    + apply is_null_true in He. intuition congruence.
    + apply is_null_false in He. intuition congruence.
Qed.

Lemma gl3wGetProcAddress_null_iff_witness :
  exists st',
    gl3wGetProcAddress (driver 3 2) (Build Win32 false) "glFoo"
      initial_state = Ret NULL st' /\
    generic_lookup (driver 3 2) (Build Win32 false) initial_state "glFoo" =
      NULL.
Proof.
  eexists. split; [vm_compute; reflexivity|].
  destruct (proj1 (gl3wGetProcAddress_null_iff (driver 3 2)
                     (Build Win32 false) "glFoo" initial_state 0 _
                     ltac:(vm_compute; reflexivity)) eq_refl)
    as [Hgen _].
  exact Hgen.
Defined.

(** *** What initialization needs *)

(** X12: after a run of [gl3wInit] that returns, the variable of every
    symbol outside the catalog is as before, and the [glGetIntegerv]
    pointer that decides the return code is what [get_proc] found for that
    name when the name is in the catalog.  With the name outside the
    catalog and its variable null, the run returns -1 whatever the
    driver. *)
Theorem gl3wInit_needs_glGetIntegerv
    (W : World) (cfg : build) (catalog : list string)
    (st : state) (r : Z) (st' : state) :
  gl3wInit W cfg catalog st = Ret r st' ->
  (forall name, name ∉ catalog -> proc_var st' name = proc_var st name) /\
  (forall name, name ∈ catalog ->
     proc_var st' name = resolve W cfg (after_open W cfg st) name) /\
  ("glGetIntegerv" ∈ catalog ->
   (r = 0 <->
    resolve W cfg (after_open W cfg st) "glGetIntegerv" <> NULL /\
    3 <= reported_major W
           (resolve W cfg (after_open W cfg st) "glGetIntegerv") st)) /\
  ("glGetIntegerv" ∉ catalog -> glGetIntegerv st = NULL -> r = -1).
Proof.
  intros Hrun. apply gl3wInit_inv in Hrun as (_ & -> & ->).
  set (s := after_close W cfg catalog st).
  assert (Hout : forall name, name ∉ catalog ->
                   proc_var (after_parse W s) name = proc_var st name).
  { intros name Hnot. unfold proc_var.
    rewrite procs_after_parse. unfold s. rewrite procs_after_close.
    rewrite assign_all_other by exact Hnot. reflexivity. }
  assert (Hin : forall name, name ∈ catalog ->
                  proc_var (after_parse W s) name =
                  resolve W cfg (after_open W cfg st) name).
  { intros name Hmem. unfold proc_var.
    rewrite procs_after_parse. unfold s. rewrite procs_after_close.
    rewrite assign_all_member by exact Hmem. reflexivity. }
  assert (Hcode : parse_result W s = 0 <->
                  glGetIntegerv s <> 0 /\
                  3 <= reported_major W (glGetIntegerv s) st).
  { pose proof (parse_result_fails W s) as Hf.
    pose proof (parse_result_cases W s) as Hc.
    replace (reported_major W (glGetIntegerv s) s)
      with (reported_major W (glGetIntegerv s) st) in Hf
      by (unfold reported_major, s; rewrite version_after_close; reflexivity).
    split.
    - intros H0. split.
      + intros Hn. apply (proj2 Hf); [left; exact Hn | exact H0].
      + destruct (Z.lt_ge_cases (reported_major W (glGetIntegerv s) st) 3)
          as [Hlt|Hge]; [|exact Hge].
        exfalso. apply (proj2 Hf); [right; exact Hlt | exact H0].
    - intros [Hn Hge].
      destruct Hc as [H0|H1]; [exact H0|].
      exfalso. assert (Hne : parse_result W s <> 0) by lia.
      apply Hf in Hne as [Hz|Hlt]; [contradiction | lia]. }
  assert (Hptr : glGetIntegerv s = glGetIntegerv (after_parse W s))
    by (symmetry; apply glGetIntegerv_after_parse).
  split; [exact Hout|]. split; [exact Hin|]. split.
  - intros Hmem. rewrite Hcode, Hptr.
    unfold glGetIntegerv at 1 2. rewrite (Hin _ Hmem). reflexivity.
  - intros Hnot Hnull.
    assert (Hs : glGetIntegerv s = 0).
    { rewrite Hptr. unfold glGetIntegerv. rewrite (Hout _ Hnot). exact Hnull. }
    unfold parse_result. apply is_null_true in Hs. rewrite Hs. reflexivity.
Qed.

Lemma gl3wInit_needs_glGetIntegerv_witness :
  exists st',
    gl3wInit (driver 3 2) (Build Win32 false) ["glBar"] initial_state =
      Ret (-1) st' /\
    proc_var st' "glBar" = 0x2000 /\
    proc_var st' "glGetIntegerv" = NULL.
Proof.
  eexists. split; [vm_compute; reflexivity|].
  destruct (gl3wInit_needs_glGetIntegerv (driver 3 2) (Build Win32 false)
              ["glBar"] initial_state (-1) _ ltac:(vm_compute; reflexivity))
    as (Hout & Hin & _).
  split.
  - rewrite Hin by set_solver. reflexivity.
  - rewrite Hout by set_solver. reflexivity.
Defined.

(** ** The return code and the failure paths *)

Lemma returns_when_opened W cfg catalog :
  target cfg = Win32 \/ open_succeeded W cfg = true ->
  init_returns W cfg catalog = true /\ glx_resolved W cfg = true.
Proof.
  unfold init_returns, open_succeeded, open_aborts, glx_resolved.
  intros [Hwin|Hopen].
  - rewrite Hwin. split; reflexivity.
  - apply andb_true_iff in Hopen as [Hmod Hrest].
    apply negb_true_iff in Hmod.
    destruct (target cfg); rewrite ?Hmod, ?Hrest, ?andb_false_r;
      split; reflexivity.
Qed.

Lemma glGetIntegerv_after_close W cfg catalog st :
  glGetIntegerv (after_close W cfg catalog st) =
  loaded_glGetIntegerv W cfg catalog st.
Proof.
  unfold loaded_glGetIntegerv, glGetIntegerv at 1, proc_var.
  rewrite procs_after_close.
  case_bool_decide as Hin.
  - rewrite assign_all_member by exact Hin. reflexivity.
  - rewrite assign_all_other by exact Hin. reflexivity.
Qed.

Lemma gl3wInit_code W cfg catalog st r st' :
  gl3wInit W cfg catalog st = Ret r st' ->
  (r = 0 \/ r = -1) /\
  (r <> 0 <->
   loaded_glGetIntegerv W cfg catalog st = 0 \/
   reported_major W (loaded_glGetIntegerv W cfg catalog st) st < 3).
Proof.
  intros Hrun. apply gl3wInit_inv in Hrun as (_ & -> & _).
  split; [apply parse_result_cases|].
  rewrite parse_result_fails, glGetIntegerv_after_close.
  unfold reported_major. rewrite version_after_close. reflexivity.
Qed.

(** C4, as the claim states it, for every driver and every symbol: two
    drivers that report the same version and answer alike for every symbol
    but [glGetIntegerv] get different codes, 0 where the symbol resolves
    and -1 where it resolves to null; and on the Apple block without the
    framework the run does not return a code at all. *)
Lemma glGetIntegerv_lookup_changes_the_code :
  (forall f pname old,
      call_glGetIntegerv (driver_without_query 3 2) f pname old =
      call_glGetIntegerv (driver 3 2) f pname old) /\
  (forall name st,
      name <> "glGetIntegerv" ->
      resolve (driver_without_query 3 2) (Build Win32 false) st name =
      resolve (driver 3 2) (Build Win32 false) st name) /\
  (exists s1,
      gl3wInit (driver 3 2) (Build Win32 false) sample_catalog
        initial_state = Ret 0 s1) /\
  (exists s2,
      gl3wInit (driver_without_query 3 2) (Build Win32 false) sample_catalog
        initial_state = Ret (-1) s2) /\
  gl3wInit no_driver (Build Apple false) sample_catalog initial_state = Abort.
Proof.
  split; [reflexivity|]. split.
  { intros name st Hne.
    unfold resolve, extension_lookup, generic_lookup.
    cbn [target driver driver_without_query wglGetProcAddress GetProcAddress].
    destruct (String.eqb_spec name "glGetIntegerv") as [He|_];
      [contradiction | reflexivity]. }
  split; [eexists; vm_compute; reflexivity|].
  split; [eexists; vm_compute; reflexivity|].
  reflexivity.
Qed.

(** C4 (amended): every run of [gl3wInit] that returns gives 0 or -1, and
    a nonzero code exactly when the pointer loaded for [glGetIntegerv] is
    null or the driver reports through it a major below 3, in particular
    when it reports 2.  Such a run exists on Windows and wherever the open
    calls succeeded.  The lookup of [glGetIntegerv] is the only one that
    bears on the code: two returning runs, whatever their worlds, platforms
    and catalogs answer for other symbols, return the same code as soon as
    their [glGetIntegerv] pointers are both null or both not, and their
    reported majors both below 3 or both not. *)
Theorem gl3wInit_result
    (W : World) (cfg : build) (catalog : list string) (st : state) :
  (forall r st',
      gl3wInit W cfg catalog st = Ret r st' ->
      (r = 0 \/ r = -1) /\
      (r <> 0 <->
       loaded_glGetIntegerv W cfg catalog st = NULL \/
       reported_major W (loaded_glGetIntegerv W cfg catalog st) st < 3) /\
      (reported_major W (loaded_glGetIntegerv W cfg catalog st) st = 2 ->
       r <> 0) /\
      glGetIntegerv st' = loaded_glGetIntegerv W cfg catalog st) /\
  (target cfg = Win32 \/ open_succeeded W cfg = true ->
   exists r st', gl3wInit W cfg catalog st = Ret r st') /\
  (forall W2 cfg2 catalog2 st2 r st' r2 st2',
      gl3wInit W cfg catalog st = Ret r st' ->
      gl3wInit W2 cfg2 catalog2 st2 = Ret r2 st2' ->
      (loaded_glGetIntegerv W2 cfg2 catalog2 st2 = NULL <->
       loaded_glGetIntegerv W cfg catalog st = NULL) ->
      (reported_major W2 (loaded_glGetIntegerv W2 cfg2 catalog2 st2) st2 < 3
       <->
       reported_major W (loaded_glGetIntegerv W cfg catalog st) st < 3) ->
      r2 = r).
Proof.
  split; [|split].
  - intros r st' Hrun.
    destruct (gl3wInit_code _ _ _ _ _ _ Hrun) as [Hcases Hiff].
    split; [exact Hcases|]. split; [exact Hiff|]. split.
    + intros Htwo. apply Hiff. right. lia.
    + apply gl3wInit_inv in Hrun as (_ & _ & ->).
      rewrite glGetIntegerv_after_parse. apply glGetIntegerv_after_close.
  - intros Hopen. eexists _, _. apply gl3wInit_returns.
    apply returns_when_opened. exact Hopen.
  - intros W2 cfg2 catalog2 st2 r st' r2 st2' Hrun Hrun2 Hptr Hmaj.
    destruct (gl3wInit_code _ _ _ _ _ _ Hrun) as [Hcases Hiff].
    destruct (gl3wInit_code _ _ _ _ _ _ Hrun2) as [Hcases2 Hiff2].
    rewrite Hptr, Hmaj, <- Hiff in Hiff2.
    destruct Hcases as [H0|H1], Hcases2 as [H0'|H1']; lia.
Qed.

Lemma gl3wInit_result_witness :
  open_succeeded (driver 2 1) (Build Posix false) = true /\
  loaded_glGetIntegerv (driver 2 1) (Build Posix false) sample_catalog
    initial_state = 0x3000 /\
  exists r st',
    gl3wInit (driver 2 1) (Build Posix false) sample_catalog initial_state =
      Ret r st' /\
    r <> 0 /\ proc_var st' "glBar" = 0x2000.
Proof.
  split; [reflexivity|]. split; [vm_compute; reflexivity|].
  destruct (gl3wInit_result (driver 2 1) (Build Posix false) sample_catalog
              initial_state) as (Hcode & Hex & _).
  destruct (Hex (or_intror eq_refl)) as (r & st' & Hrun).
  destruct (Hcode r st' Hrun) as (_ & _ & Htwo & _).
  exists r, st'. split; [exact Hrun|]. split.
  - apply Htwo. vm_compute. reflexivity.
  - rewrite gl3wInit_run in Hrun. vm_compute in Hrun.
    injection Hrun as _ <-. reflexivity.
Defined.

Lemma get_proc_after_init W cfg catalog st proc :
  gl3wGetProcAddress W cfg proc
    (after_parse W (after_close W cfg catalog st)) =
  if glx_resolved W cfg
  then Ret (resolve W cfg (after_open W cfg st) proc)
           (logs (resolve_events W cfg (after_open W cfg st) proc)
                 (after_parse W (after_close W cfg catalog st)))
  else Crash.
Proof.
  set (s := after_close W cfg catalog st).
  assert (Hsame : same_resolver (after_open W cfg st) (after_parse W s)).
  { unfold after_parse. destruct (is_null _); repeat split. }
  unfold gl3wGetProcAddress. rewrite get_proc_run.
  rewrite (resolver_ready_same cfg _ _ Hsame), resolver_ready_after_open.
  destruct (glx_resolved W cfg); [|reflexivity].
  rewrite (resolve_same W cfg _ _ proc Hsame).
  destruct Hsame as (Hl & Hb & Hg).
  unfold resolve_events, extension_lookup, extension_event, generic_event.
  rewrite <- Hl, <- Hb, <- Hg. reflexivity.
Qed.

Lemma gl3wInit_aborts_iff W cfg catalog st :
  gl3wInit W cfg catalog st = Abort <->
  target cfg = Apple /\ NDEBUG cfg = false /\ opened_module W cfg = 0.
Proof.
  rewrite gl3wInit_run. unfold open_aborts.
  destruct (target cfg) eqn:Ht.
  - destruct (glx_resolved W cfg || _);
      (split; [discriminate | intros (? & _); discriminate]).
  - destruct (NDEBUG cfg); simpl.
    + destruct (glx_resolved W cfg || _);
        (split; [discriminate | intros (_ & ? & _); discriminate]).
    + destruct (is_null (opened_module W cfg)) eqn:Hm; simpl.
      * apply is_null_true in Hm. tauto.
      * apply is_null_false in Hm.
        destruct (glx_resolved W cfg || _);
          (split; [discriminate | intros (_ & _ & ?); contradiction]).
  - destruct (glx_resolved W cfg || _);
      (split; [discriminate | intros (? & _); discriminate]).
Qed.

(** C5, as the claim states it for every loader operation and every
    platform: on the Apple block with assertions compiled in, a bundle that
    cannot be created makes [gl3wInit] end the process instead of returning
    a status. *)
Lemma apple_open_failure_aborts :
  gl3wInit no_driver (Build Apple false) sample_catalog initial_state =
    Abort /\
  ~ exists r st',
      gl3wInit no_driver (Build Apple false) sample_catalog initial_state =
        Ret r st'.
Proof.
  assert (H : gl3wInit no_driver (Build Apple false) sample_catalog
                initial_state = Abort) by reflexivity.
  split; [exact H|].
  intros (r & st' & Hret). rewrite H in Hret. discriminate.
Qed.

(** C5 (amended): on the Windows block whatever fails, the module open
    included, and on the other two blocks once the open calls succeeded,
    [gl3wInit] returns 0 or -1 to its caller: -1 whenever the
    [glGetIntegerv] pointer is null or the reported major is below 3; a
    symbol that does not resolve leaves a null pointer in its variable, and
    [gl3wGetProcAddress] afterwards returns the pointer found, null or
    not.  On the Apple block with assertions compiled in, a failed module
    open ends the process at [assert(bundle != NULL)]. *)
Theorem failures_reach_the_caller
    (W : World) (cfg : build) (catalog : list string) (st : state)
    (proc : string) :
  (target cfg = Win32 \/ open_succeeded W cfg = true ->
   exists r st',
     gl3wInit W cfg catalog st = Ret r st' /\
     (r = 0 \/ r = -1) /\
     (loaded_glGetIntegerv W cfg catalog st = NULL \/
      reported_major W (loaded_glGetIntegerv W cfg catalog st) st < 3 ->
      r = -1) /\
     (forall name, name ∈ catalog ->
        proc_var st' name = resolve W cfg (after_open W cfg st) name) /\
     gl3wGetProcAddress W cfg proc st' =
       Ret (resolve W cfg (after_open W cfg st) proc)
           (logs (resolve_events W cfg (after_open W cfg st) proc) st')) /\
  (target cfg = Apple -> NDEBUG cfg = false -> opened_module W cfg = NULL ->
   gl3wInit W cfg catalog st = Abort).
Proof.
  split.
  - intros Hopen.
    destruct (returns_when_opened W cfg catalog Hopen) as [Hret Hglx].
    pose proof (gl3wInit_returns W cfg catalog st Hret) as Hrun.
    eexists _, _. split; [exact Hrun|].
    destruct (gl3wInit_code _ _ _ _ _ _ Hrun) as [Hcases Hiff].
    split; [exact Hcases|]. split; [|split].
    + intros Hfail. apply Hiff in Hfail. lia.
    + intros name Hin. unfold proc_var.
      rewrite procs_after_parse, procs_after_close.
      rewrite assign_all_member by exact Hin. reflexivity.
    + rewrite get_proc_after_init, Hglx. reflexivity.
  - intros Happle Hnd Hmod. apply gl3wInit_aborts_iff. auto.
Qed.

(** X11: [gl3wInit] is ended by the assertion exactly on the Apple block
    with assertions compiled in and no bundle; it calls through a null
    function pointer exactly on the dlopen block when glXGetProcAddressARB
    was not found and the catalog is not empty; on Windows, and on the
    other blocks when the open calls succeeded, it returns. *)
Theorem gl3wInit_outcome
    (W : World) (cfg : build) (catalog : list string) (st : state) :
  (gl3wInit W cfg catalog st = Abort <->
   target cfg = Apple /\ NDEBUG cfg = false /\ opened_module W cfg = NULL) /\
  (gl3wInit W cfg catalog st = Crash <->
   target cfg = Posix /\
   dlsym W (opened_module W cfg) "glXGetProcAddressARB" = NULL /\
   catalog <> []) /\
  (target cfg = Win32 \/ open_succeeded W cfg = true ->
   exists r st', gl3wInit W cfg catalog st = Ret r st').
Proof.
  split; [apply gl3wInit_aborts_iff|]. split.
  - rewrite gl3wInit_run. unfold open_aborts, glx_resolved.
    destruct (target cfg) eqn:Ht; simpl.
    + split; [discriminate | intros (? & _); discriminate].
    + destruct (negb (NDEBUG cfg) && is_null (opened_module W cfg));
        (split; [discriminate | intros (? & _); discriminate]).
    + destruct (is_null (dlsym W (opened_module W cfg)
                           "glXGetProcAddressARB")) eqn:Hg; simpl.
      * apply is_null_true in Hg.
        destruct catalog as [|name rest].
        -- split; [discriminate | intros (_ & _ & H); contradiction].
        -- split; [intros _; repeat split; [exact Hg | discriminate]
                  | reflexivity].
      * apply is_null_false in Hg.
        split; [discriminate | intros (_ & H & _); contradiction].
  - intros Hopen. eexists _, _. apply gl3wInit_returns.
    apply returns_when_opened. exact Hopen.
Qed.
